(** * The job poller of [frontend/app.js]

    A shallow embedding of the part of the browser frontend that resolves
    the API base URL, submits a generation job and polls its status:
    [computeDefaultApiBase], [setApiBase], [getBackendOrigin],
    [submitFaceGeneration] / [submitVideoGeneration] /
    [submitLipsyncGeneration] and [startJobPolling] with its inner
    [poll] closure; and, on their own small states, [addToHistory],
    [showResult], [setTheme] with the theme toggle, and [saveSettings]
    with [sendSettingsToBackend] and the settings form's handler.

    The page is single-threaded.  Each handler runs to its next [await]
    and is resumed by the event loop, so the model is a transition system
    whose events are the things the event loop can deliver: the saving
    of the settings, the submission of a form, the firing of an interval
    and the settling of a [fetch].  Everything the handlers do to the
    page (DOM writes, toasts, console output, network requests) is
    recorded in a chronological log.  The elements that the handlers look
    up in the document are taken to exist, so that those accesses do not
    throw.  The one lookup whose outcome depends on data is modelled: the
    close button that [showToast] looks up in the markup it has just
    built around the message. *)

From Stdlib Require Import ZArith List String Ascii Bool Lia Sorted.
From Stdlib Require Import DecimalString.
From stdpp Require Import base option list gmap fin_maps.

#[local] Open Scope Z_scope.

(** ** JavaScript strings and values *)

(** A JS string is a sequence of UTF-16 code units. *)
Abbreviation jsstring := (list N).

Definition lit (s : string) : jsstring :=
  map N_of_ascii (list_ascii_of_string s).

(** [WhiteSpace] and [LineTerminator] of ECMAScript, the code units that
    [String.prototype.trim] removes. *)
Definition is_js_space (c : N) : bool :=
  (  (9 <=? c) && (c <=? 13)              (* TAB LF VT FF CR *)
  || (c =? 32) || (c =? 160)              (* SP, NBSP *)
  || (c =? 5760)                          (* U+1680 *)
  || (8192 <=? c) && (c <=? 8202)         (* U+2000 .. U+200A *)
  || (c =? 8232) || (c =? 8233)           (* LS, PS *)
  || (c =? 8239) || (c =? 8287)           (* U+202F, U+205F *)
  || (c =? 12288) || (c =? 65279))%N.     (* U+3000, U+FEFF *)

Fixpoint trimStart (s : jsstring) : jsstring :=
  match s with
  | c :: s' => if is_js_space c then trimStart s' else s
  | [] => []
  end.

Definition trimEnd (s : jsstring) : jsstring := rev (trimStart (rev s)).

Definition trim (s : jsstring) : jsstring := trimEnd (trimStart s).

Definition slash : N := 47%N.

(** [value.replace(/\/$/, '')]: the pattern has no flags, so [$] matches
    at the end of the input only and the one possible match is a final
    ['/'] ; it is replaced by the empty string. *)
Fixpoint replace_trailing_slash (s : jsstring) : jsstring :=
  match s with
  | [] => []
  | [c] => if (c =? slash)%N then [] else [c]
  | c :: s' => c :: replace_trailing_slash s'
  end.

Definition ends_with_slash (s : jsstring) : bool :=
  match last s with
  | Some c => (c =? slash)%N
  | None => false
  end.

Inductive jsval : Type :=
  | JUndefined
  | JNull
  | JBool (b : bool)
  | JNum (z : Z)          (* integer-valued numbers, enough for [progress] *)
  | JStr (s : jsstring)
  | JObj (shown : jsstring).  (* an object or array, with its [ToString] *)

#[global] Instance jsval_eq_dec : EqDecision jsval.
Proof. solve_decision. Defined.

(** [ToBoolean]. *)
Definition truthy (v : jsval) : bool :=
  match v with
  | JUndefined | JNull => false
  | JBool b => b
  | JNum z => negb (z =? 0)
  | JStr s => match s with [] => false | _ => true end
  | JObj _ => true
  end.

(** [a || b]. *)
Definition js_or (a b : jsval) : jsval := if truthy a then a else b.

(** [v === 'literal']. *)
Definition strict_eq_lit (v : jsval) (s : string) : bool :=
  match v with
  | JStr s' => bool_decide (s' = lit s)
  | _ => false
  end.

(** [ToString], as template literals and [new Error(v)] apply it. *)
Definition to_string (v : jsval) : jsstring :=
  match v with
  | JUndefined => lit "undefined"
  | JNull => lit "null"
  | JBool true => lit "true"
  | JBool false => lit "false"
  | JNum z => lit (NilZero.string_of_int (Z.to_int z))
  | JStr s => s
  | JObj shown => shown
  end.

(** ** Exceptions *)

(** What a [throw] carries: an [Error] built by the program, or an error
    raised by the engine, whose message text is the engine's own. *)
Inductive native_error : Type :=
  | FetchFailed           (* fetch() rejected: no response at all *)
  | JsonSyntax (message : jsstring)
                          (* response.json() rejected; the message is the
                             engine's and may quote the body *)
  | NullProperty (property : string)
                          (* property read, or method call, on null *)
  | InvalidURL.           (* new URL(s) on a string that does not parse *)

Inductive exn : Type :=
  | Error (message : jsstring)
  | Native (e : native_error).

Inductive text : Type :=
  | Text (s : jsstring)
  | NativeMessage (e : native_error).

(** [error.message]. *)
Definition exn_message (e : exn) : text :=
  match e with
  | Error m => Text m
  | Native n => NativeMessage n
  end.

Inductive completion (A : Type) : Type :=
  | Normal (a : A)
  | Throw (e : exn).
Arguments Normal {A} a.
Arguments Throw {A} e.

(** ** API base *)

Record location := Location {
  hostname : jsstring;
  origin : jsstring
}.

Definition local_api_base : jsstring := lit "http://localhost:8000/api".

Definition computeDefaultApiBase (loc : location) : jsstring :=
  let host := hostname loc in
  let isLocal := bool_decide (host = lit "localhost")
                 || bool_decide (host = lit "127.0.0.1") in
  if isLocal then local_api_base
  else origin loc ++ lit "/api".

(** ** Translations ([translations.js] and [t] of [app.js]) *)

Definition en_table : list (string * string) :=
  [ ("required", "required"); ("startImage", "Start Image");
    ("drivingVideo", "Driving Video"); ("sourceVideo", "Source Video");
    ("speechText", "Speech Text"); ("processing", "Processing");
    ("completed", "Completed"); ("failed", "Failed");
    ("settingsSaved", "Settings saved successfully!") ]%string.

Definition it_table : list (string * string) :=
  [ ("required", "richiesto"); ("startImage", "Immagine Iniziale");
    ("drivingVideo", "Video Guida"); ("sourceVideo", "Video Sorgente");
    ("speechText", "Testo da Pronunciare"); ("processing", "In elaborazione");
    ("completed", "Completato"); ("failed", "Fallito");
    ("settingsSaved", "Impostazioni salvate con successo!") ]%string.

(** [window.translations[lang]], restricted to the keys the modelled
    functions look up. *)
Definition window_translations (lang : jsstring) : option (list (string * string)) :=
  if bool_decide (lang = lit "en") then Some en_table
  else if bool_decide (lang = lit "it") then Some it_table
  else None.

Fixpoint table_get (key : string) (tbl : list (string * string)) : option string :=
  match tbl with
  | [] => None
  | (k, v) :: tbl' => if String.eqb k key then Some v else table_get key tbl'
  end.

(** [t(key)]: the entry of the current language (English when the
    language has no table), or the key itself. *)
Definition t (language : jsstring) (key : string) : jsstring :=
  let translations := default en_table (window_translations language) in
  match table_get key translations with
  | Some v => lit v
  | None => lit key
  end.

(** ** Objects, responses and the page's effects *)

(** A JS object as far as the program reads it: the properties that the
    modelled code accesses.  A property that is absent reads as
    [JUndefined]. *)
Record jsobject := JsObject {
  job_id : jsval;
  job_type : jsval;
  status : jsval;
  progress : jsval;
  message : jsval;
  result_url : jsval;
  error : jsval;
  detail : jsval
}.

Definition empty_object : jsobject :=
  JsObject JUndefined JUndefined JUndefined JUndefined
           JUndefined JUndefined JUndefined JUndefined.

(** What [await response.json()] gives.  A body that is a JSON number,
    string or boolean reads like an object without properties and is
    covered by [BodyObject empty_object]. *)
Inductive json_body : Type :=
  | BodyInvalid (message : jsstring)
                                    (* not JSON: the promise rejects with a
                                       SyntaxError of this message *)
  | BodyNull                        (* the JSON value null *)
  | BodyObject (o : jsobject).

(** How a [fetch] settles. *)
Inductive fetch_result : Type :=
  | NetworkError                    (* the promise rejects *)
  | HttpResponse (ok : bool) (body : json_body).

Inductive toast_type : Type := ToastSuccess | ToastError | ToastInfo.

Inductive job_kind : Type := Face | Video | Lipsync.

Definition kind_name (k : job_kind) : string :=
  match k with Face => "face" | Video => "video" | Lipsync => "lipsync" end.

Inductive effect : Type :=
  | Fetch (method : string) (url : jsstring)
  | ClearInterval (id : nat)
  | ShowStatusPanel         (* jobStatus shown, resultDisplay and demo hidden *)
  | SetBadge (className : string) (textContent : jsstring)
  | SetProgressWidth (width : jsstring)
  | SetStatusMessage (m : jsval)
  | SetStatusTime (elapsed : Z)     (* textContent = `${elapsed}s` *)
  | ShowResult (job : jsobject)
  | ShowToast (m : text) (ty : toast_type)
  | AddToHistory (job : jsobject)
  | ConsoleError (e : exn)
  | SetButtonLoading (form : job_kind) (loading : bool).

(** Who performed an effect: the [poll] closure (or the body) of the
    [startJobPolling] call that registered interval [session], or some
    other handler of the page. *)
Inductive actor : Type :=
  | Poller (session : nat)
  | Page.

(** The variables a [poll] closure captures.  Each call of
    [startJobPolling] creates one closure; it is named after the interval
    id under which that call registers it. *)
Record closure := Closure {
  c_session : nat;
  c_jobId : jsval;
  c_startTime : Z
}.

Record world := World {
  toast_parser : text -> bool;         (* the browser's HTML parser, as far as
                                          [showToast] depends on it: whether the
                                          markup built around a message that has
                                          a '<', or around an engine's message,
                                          still holds the '.toast-close' button *)
  API_BASE : jsstring;
  language : jsstring;                 (* state.language *)
  pollingTimer : option nat;           (* state.pollingTimer, None = null *)
  currentJob : option jsobject;        (* state.currentJob, None = null *)
  intervals : gmap nat closure;        (* the browser's active intervals *)
  next_interval : nat;                 (* the id the next setInterval returns *)
  inflight : gmap nat closure;         (* status fetches not yet settled *)
  next_request : nat;
  submitting : gmap nat job_kind;      (* submission fetches not yet settled *)
  log : list (actor * effect)          (* oldest first *)
}.

Definition set_API_BASE (b : jsstring) (w : world) : world :=
  World (toast_parser w) b (language w) (pollingTimer w) (currentJob w) (intervals w)
        (next_interval w) (inflight w) (next_request w) (submitting w) (log w).

Definition set_pollingTimer (h : option nat) (w : world) : world :=
  World (toast_parser w) (API_BASE w) (language w) h (currentJob w) (intervals w)
        (next_interval w) (inflight w) (next_request w) (submitting w) (log w).

Definition set_currentJob (j : option jsobject) (w : world) : world :=
  World (toast_parser w) (API_BASE w) (language w) (pollingTimer w) j (intervals w)
        (next_interval w) (inflight w) (next_request w) (submitting w) (log w).

Definition set_intervals (m : gmap nat closure) (n : nat) (w : world) : world :=
  World (toast_parser w) (API_BASE w) (language w) (pollingTimer w) (currentJob w) m
        n (inflight w) (next_request w) (submitting w) (log w).

Definition set_inflight (m : gmap nat closure) (w : world) : world :=
  World (toast_parser w) (API_BASE w) (language w) (pollingTimer w) (currentJob w) (intervals w)
        (next_interval w) m (next_request w) (submitting w) (log w).

Definition set_next_request (n : nat) (w : world) : world :=
  World (toast_parser w) (API_BASE w) (language w) (pollingTimer w) (currentJob w) (intervals w)
        (next_interval w) (inflight w) n (submitting w) (log w).

Definition set_submitting (m : gmap nat job_kind) (w : world) : world :=
  World (toast_parser w) (API_BASE w) (language w) (pollingTimer w) (currentJob w) (intervals w)
        (next_interval w) (inflight w) (next_request w) m (log w).

Definition set_log (l : list (actor * effect)) (w : world) : world :=
  World (toast_parser w) (API_BASE w) (language w) (pollingTimer w) (currentJob w) (intervals w)
        (next_interval w) (inflight w) (next_request w) (submitting w) l.

(** ** Handlers: state and exceptions *)

Definition M (A : Type) : Type := world -> completion A * world.

Definition ret {A} (a : A) : M A := fun w => (Normal a, w).

Definition throw {A} (e : exn) : M A := fun w => (Throw e, w).

Definition bind {A B} (m : M A) (k : A -> M B) : M B :=
  fun w => match m w with
           | (Normal a, w') => k a w'
           | (Throw e, w') => (Throw e, w')
           end.

Notation "'let!' x := m 'in' k" := (bind m (fun x => k))
  (at level 10, x name, m at level 100, k at level 200).
Notation "m ;; k" := (bind m (fun _ => k))
  (at level 100, k at level 200, right associativity).

(** [try { body } catch (e) { handler }] *)
Definition try_catch {A} (body : M A) (handler : exn -> M A) : M A :=
  fun w => match body w with
           | (Normal a, w') => (Normal a, w')
           | (Throw e, w') => handler e w'
           end.

(** [try { body } finally { final }], for a [final] that completes
    normally. *)
Definition try_finally {A} (body : M A) (final : M unit) : M A :=
  fun w => match body w with
           | (r, w') => match final w' with
                        | (Normal _, w'') => (r, w'')
                        | (Throw e, w'') => (Throw e, w'')
                        end
           end.

Definition get : M world := fun w => (Normal w, w).

Definition modify (f : world -> world) : M unit := fun w => (Normal tt, f w).

Definition emit (a : actor) (e : effect) : M unit :=
  modify (fun w => set_log (log w ++ [(a, e)]) w).

(** ** API base, continued *)

(** [setApiBase(url)]; [url] is [None] for [undefined] or [null], which
    [url || ''] turns into the empty string like [''] itself. *)
Definition setApiBase (loc : location) (url : option jsstring) : M unit :=
  let value := trim (default [] url) in
  match value with
  | [] => modify (set_API_BASE (computeDefaultApiBase loc))
  | _ => modify (set_API_BASE (replace_trailing_slash value))
  end.

Section BackendOrigin.

  (** The browser's URL parser is not part of the repository: [new URL(s)]
      either yields a URL record or throws, and [.origin] serialises the
      record's origin. *)
  Variable URL : Type.
  Variable new_URL : jsstring -> completion URL.
  Variable URL_origin : URL -> jsstring.

Definition getBackendOrigin : M jsstring :=
  try_catch
    (let! w := get in
     let! u := (fun w' => (new_URL (API_BASE w), w')) in
     ret (URL_origin u))
    (fun _ => ret (lit "http://localhost:8000")).

End BackendOrigin.

(** ** Timers of the browser *)

(** [setInterval(poll, POLLING_INTERVAL)]: ids are positive and never
    handed out twice.  The period (2000 ms) is not modelled: an active
    interval may fire at any time. *)
Definition setInterval (c : closure) : M nat :=
  fun w =>
    let id := next_interval w in
    (Normal id, set_intervals (<[id := c]> (intervals w)) (S id) w).

(** [clearInterval(h)]: cancels interval [h] when it is active and does
    nothing otherwise, in particular for [null] and for a stale id. *)
Definition clearInterval (a : actor) (h : option nat) : M unit :=
  match h with
  | Some id =>
      emit a (ClearInterval id) ;;
      modify (fun w => set_intervals (delete id (intervals w)) (next_interval w) w)
  | None => ret tt
  end.

(** [if (h)] on a timer handle: [null] and [0] are falsy. *)
Definition handle_truthy (h : option nat) : bool :=
  match h with
  | Some id => negb (Nat.eqb id 0)
  | None => false
  end.

(** ** Job polling *)

(** [Math.round(ms / 1000)] for an integer number of milliseconds:
    [Math.round] takes the nearest integer and rounds a tie up.  The
    quotient of an integer by 1000 is either a tie exactly or at least
    1/1000 away from one, and the rounding error of the double-precision
    division stays below that for every difference of two values of
    [Date.now()], so the result is the one computed here on integers. *)
Definition round_seconds (ms : Z) : Z := (ms + 500) / 1000.

Definition less_than : N := 60%N.

(** A string without '<'. *)
Definition plain (s : jsstring) : bool := negb (existsb (N.eqb less_than) s).

(** Whether the toast's markup, parsed, still holds its close button.  A
    message without '<' is text to the parser, so the button that follows
    it in the markup is there; for any other message the parser decides
    (a message such as '<!--' or an unclosed '<script>' swallows it).  The
    text of an engine's own message is not the program's, so the parser
    decides for it as well. *)
Definition toast_builds (w : world) (m : text) : bool :=
  match m with
  | Text s => plain s || toast_parser w m
  | NativeMessage _ => toast_parser w m
  end.

(** [showToast(message, type)]: the message goes into the toast's
    [innerHTML] before the close button; [querySelector('.toast-close')]
    then finds the button or [null], and [closeBtn.addEventListener]
    throws on [null], before the toast is appended to the page. *)
Definition showToast (a : actor) (m : text) (ty : toast_type) : M unit :=
  let! w := get in
  if toast_builds w m then emit a (ShowToast m ty)
  else throw (Native (NullProperty "addEventListener")).

(** [poll], from its call to the [await fetch(...)] at which it suspends. *)
Definition poll_issue (c : closure) : M unit :=
  let! w := get in
  emit (Poller (c_session c))
       (Fetch "GET" (API_BASE w ++ lit "/jobs/" ++ to_string (c_jobId c))) ;;
  modify (fun w => set_next_request (S (next_request w))
                     (set_inflight (<[next_request w := c]> (inflight w)) w)).

(** [await fetch(...)] once the fetch has settled. *)
Definition await_fetch (r : fetch_result) : M (bool * json_body) :=
  match r with
  | NetworkError => throw (Native FetchFailed)
  | HttpResponse ok body => ret (ok, body)
  end.

(** [await response.json()]; [None] is [null]. *)
Definition await_json (body : json_body) : M (option jsobject) :=
  match body with
  | BodyInvalid m => throw (Native (JsonSyntax m))
  | BodyNull => ret None
  | BodyObject o => ret (Some o)
  end.

(** The read of [property] on a value, which throws on [null]. *)
Definition deref (property : string) (x : option jsobject) : M jsobject :=
  match x with
  | Some o => ret o
  | None => throw (Native (NullProperty property))
  end.

(** [poll], resumed when its fetch settles with [r] while [Date.now()]
    is [now]. *)
Definition poll_resume (c : closure) (r : fetch_result) (now : Z) : M unit :=
  let me := Poller (c_session c) in
  try_catch
    (let! response := await_fetch r in
     (if negb (fst response)
      then throw (Error (lit "Failed to get job status"))
      else ret tt) ;;
     let! job := await_json (snd response) in
     let! job := deref "progress" job in
     emit me (SetProgressWidth (to_string (progress job) ++ lit "%")) ;;
     emit me (SetStatusMessage (message job)) ;;
     let elapsed := round_seconds (now - c_startTime c) in
     emit me (SetStatusTime elapsed) ;;
     let! w := get in
     (if strict_eq_lit (status job) "completed" then
        clearInterval me (pollingTimer w) ;;
        emit me (SetBadge "status-badge completed" (t (language w) "completed")) ;;
        emit me (ShowResult job) ;;
        showToast me (Text (t (language w) "completed" ++ lit "!")) ToastSuccess ;;
        emit me (AddToHistory job)
      else if strict_eq_lit (status job) "failed" then
        clearInterval me (pollingTimer w) ;;
        emit me (SetBadge "status-badge failed" (t (language w) "failed")) ;;
        showToast me
          (Text (to_string (js_or (error job) (JStr (t (language w) "failed")))))
          ToastError
      else ret tt) ;;
     modify (set_currentJob (Some job)))
    (fun e => emit me (ConsoleError e)).

(** The first statement of [startJobPolling], "Clear previous polling":
    [if (state.pollingTimer) clearInterval(state.pollingTimer)].  It is
    the only cancellation the page offers besides the terminal branches
    of [poll]; the source has no separate function for it. *)
Definition clear_previous_polling (me : actor) : M unit :=
  let! w := get in
  if handle_truthy (pollingTimer w)
  then clearInterval me (pollingTimer w)
  else ret tt.

Definition startJobPolling (jobId jobType : jsval) (now : Z) : M unit :=
  let! w := get in
  let me := Poller (next_interval w) in
  clear_previous_polling me ;;
  modify (set_currentJob
            (Some (JsObject jobId jobType JUndefined JUndefined
                            JUndefined JUndefined JUndefined JUndefined))) ;;
  emit me ShowStatusPanel ;;
  emit me (SetBadge "status-badge processing" (t (language w) "processing")) ;;
  let startTime := now in
  let poll := Closure (next_interval w) jobId startTime in
  poll_issue poll ;;
  let! id := setInterval poll in
  modify (set_pollingTimer (Some id)).

(** ** Submission *)

(** What the submit handlers read from the page: whether a file sits in
    each upload slot of [state.uploadedFiles], and the lip-sync text. *)
Record form_inputs := FormInputs {
  uploaded_video : bool;
  uploaded_videoMotion : bool;
  uploaded_lipsync : bool;
  lipsync_text : jsstring
}.

Definition endpoint (k : job_kind) : string :=
  match k with
  | Face => "/face/generate"
  | Video => "/video/generate"
  | Lipsync => "/lipsync/generate"
  end.

(** The common text of the three submit functions from the start of
    their [try] block to the [await fetch(...)]. *)
Definition submit_issue (k : job_kind) : M unit :=
  emit Page (SetButtonLoading k true) ;;
  let! w := get in
  emit Page (Fetch "POST" (API_BASE w ++ lit (endpoint k))) ;;
  modify (fun w => set_next_request (S (next_request w))
                     (set_submitting (<[next_request w := k]> (submitting w)) w)).

Definition required_toast (key : string) : M unit :=
  let! w := get in
  showToast Page
    (Text (t (language w) key ++ lit " " ++ t (language w) "required"))
    ToastError.

Definition submitFaceGeneration (f : form_inputs) : M unit :=
  submit_issue Face.

Definition submitVideoGeneration (f : form_inputs) : M unit :=
  if negb (uploaded_video f) then required_toast "startImage"
  else if negb (uploaded_videoMotion f) then required_toast "drivingVideo"
  else submit_issue Video.

Definition submitLipsyncGeneration (f : form_inputs) : M unit :=
  if negb (uploaded_lipsync f) then required_toast "sourceVideo"
  else match trim (lipsync_text f) with
       | [] => required_toast "speechText"
       | _ => submit_issue Lipsync
       end.

(** A submit function resumed when its fetch settles: the rest of the
    [try] block, the [catch] and the [finally]. *)
Definition submit_resume (k : job_kind) (r : fetch_result) (now : Z) : M unit :=
  try_finally
    (try_catch
       (let! response := await_fetch r in
        (if negb (fst response) then
           let! error := await_json (snd response) in
           let! error := deref "detail" error in
           throw (Error (to_string
                           (js_or (detail error) (JStr (lit "Generation failed")))))
         else ret tt) ;;
        let! data := await_json (snd response) in
        let! w := get in
        showToast Page (Text (t (language w) "processing" ++ lit "...")) ToastSuccess ;;
        let! data := deref "job_id" data in
        startJobPolling (job_id data) (JStr (lit (kind_name k))) now)
       (fun error => showToast Page (exn_message error) ToastError))
    (emit Page (SetButtonLoading k false)).

(** ** The event loop *)

Inductive event : Type :=
  | SaveSettings (loc : location) (url : option jsstring)
  | Submit (k : job_kind) (f : form_inputs)
  | SubmitSettled (req : nat) (r : fetch_result) (now : Z)
  | Tick (id : nat)
  | PollSettled (req : nat) (r : fetch_result) (now : Z).

Definition submit (k : job_kind) : form_inputs -> M unit :=
  match k with
  | Face => submitFaceGeneration
  | Video => submitVideoGeneration
  | Lipsync => submitLipsyncGeneration
  end.

(** One turn of the event loop; [None] when the event cannot happen in
    [w] (an interval that is not active, a fetch that is not pending). *)
Definition step (e : event) (w : world) : option world :=
  match e with
  | SaveSettings loc url => Some (snd (setApiBase loc url w))
  | Submit k f => Some (snd (submit k f w))
  | SubmitSettled req r now =>
      match submitting w !! req with
      | Some k =>
          Some (snd (submit_resume k r now
                       (set_submitting (delete req (submitting w)) w)))
      | None => None
      end
  | Tick id =>
      match intervals w !! id with
      | Some poll => Some (snd (poll_issue poll w))
      | None => None
      end
  | PollSettled req r now =>
      match inflight w !! req with
      | Some poll =>
          Some (snd (poll_resume poll r now
                       (set_inflight (delete req (inflight w)) w)))
      | None => None
      end
  end.

Fixpoint run (evs : list event) (w : world) : option world :=
  match evs with
  | [] => Some w
  | e :: evs' =>
      match step e w with
      | Some w' => run evs' w'
      | None => None
      end
  end.

(** The page as loaded in a browser whose parser is [parser]: the initial
    values of [API_BASE] and [state]. *)
Definition loaded_in (parser : text -> bool) (lang : jsstring) : world :=
  World parser local_api_base lang None None ∅ 1 ∅ 0 ∅ [].

Definition reachable (w : world) : Prop :=
  exists parser lang evs, run evs (loaded_in parser lang) = Some w.

(** The parser of the sample runs.  It stands for the browser's on the
    messages that occur there: of those, only '<!--', which opens a
    comment that runs to the end of the markup, loses the button. *)
Definition sample_parser (m : text) : bool :=
  match m with
  | Text s => negb (bool_decide (s = lit "<!--"))
  | NativeMessage _ => true
  end.

Definition loaded (lang : jsstring) : world := loaded_in sample_parser lang.

(** ** Observations on the log *)

Definition is_terminal (job : jsobject) : bool :=
  strict_eq_lit (status job) "completed" || strict_eq_lit (status job) "failed".

(** The effects by which a terminal record reaches the user: the result
    shown for a completed job, the error toast for a failed one. *)
Definition delivers_terminal (session : nat) (x : actor * effect) : bool :=
  match x with
  | (Poller s, ShowResult _) => Nat.eqb s session
  | (Poller s, ShowToast _ ToastError) => Nat.eqb s session
  | _ => false
  end.

Definition terminal_deliveries (session : nat) (l : list (actor * effect)) : nat :=
  length (List.filter (delivers_terminal session) l).

Fixpoint elapsed_shown (session : nat) (l : list (actor * effect)) : list Z :=
  match l with
  | [] => []
  | (Poller s, SetStatusTime e) :: l' =>
      if Nat.eqb s session then e :: elapsed_shown session l'
      else elapsed_shown session l'
  | _ :: l' => elapsed_shown session l'
  end.




(** ** Classification of responses and events *)

(** A status fetch that fails in transport: no response, or a response
    that is not 2xx. *)
Definition transport_failure (r : fetch_result) : bool :=
  match r with
  | NetworkError => true
  | HttpResponse ok _ => negb ok
  end.

(** What [poll] catches on a transport failure. *)
Definition transport_error (r : fetch_result) : exn :=
  match r with
  | NetworkError => Native FetchFailed
  | HttpResponse _ _ => Error (lit "Failed to get job status")
  end.

(** The body of a 2xx response that parses to an object. *)
Definition accepted (r : fetch_result) : option jsobject :=
  match r with
  | HttpResponse true (BodyObject o) => Some o
  | _ => None
  end.

(** The text of the error toast of a submission that is not accepted. *)
Definition submit_error (r : fetch_result) : text :=
  match r with
  | NetworkError => NativeMessage FetchFailed
  | HttpResponse false (BodyObject o) =>
      Text (to_string (js_or (detail o) (JStr (lit "Generation failed"))))
  | HttpResponse _ (BodyInvalid m) => NativeMessage (JsonSyntax m)
  | HttpResponse false _ => NativeMessage (NullProperty "detail")
  | HttpResponse true _ => NativeMessage (NullProperty "job_id")
  end.

(** What [showToast] throws when the markup has lost the close button. *)
Definition toast_failure : exn := Native (NullProperty "addEventListener").

(** What a submission that is not accepted writes to the log.  A 2xx
    response whose body is [null] gets the success toast before
    [data.job_id] throws.  The error toast is there when it can be built;
    the [finally] block resets the button either way. *)
Definition rejected_effects (w : world) (k : job_kind) (r : fetch_result)
  : list (actor * effect) :=
  match r with
  | HttpResponse true BodyNull =>
      [ (Page, ShowToast (Text (t (language w) "processing" ++ lit "...")) ToastSuccess) ]
  | _ => []
  end ++
  (if toast_builds w (submit_error r)
   then [ (Page, ShowToast (submit_error r) ToastError) ]
   else []) ++
  [ (Page, SetButtonLoading k false) ].

(** How a submission that is not accepted completes: normally, or with
    what [showToast] threw inside the [catch] block. *)
Definition rejected_completion (w : world) (r : fetch_result) : completion unit :=
  if toast_builds w (submit_error r) then Normal tt else Throw toast_failure.

(** The events whose handler assigns [state.currentJob]. *)
Definition writes_current_job (e : event) : bool :=
  match e with
  | SubmitSettled _ r _ | PollSettled _ r _ =>
      match accepted r with Some _ => true | None => false end
  | _ => false
  end.

(** [Date.now()] as the handlers of [evs] read it, in order. *)
Fixpoint clock_readings (evs : list event) : list Z :=
  match evs with
  | [] => []
  | SubmitSettled _ _ now :: evs' | PollSettled _ _ now :: evs' =>
      now :: clock_readings evs'
  | _ :: evs' => clock_readings evs'
  end.

(** The intervals left by the guard at the head of [startJobPolling]. *)
Definition after_clear (w : world) : gmap nat closure :=
  match pollingTimer w with
  | Some id => if Nat.eqb id 0 then intervals w else delete id (intervals w)
  | None => intervals w
  end.

Definition clear_log (me : actor) (w : world) : list (actor * effect) :=
  match pollingTimer w with
  | Some id => if Nat.eqb id 0 then [] else [(me, ClearInterval id)]
  | None => []
  end.

Definition tagged_below (n : nat) (x : actor * effect) : Prop :=
  match fst x with
  | Poller s => (s < n)%nat
  | Page => True
  end.

(** What a successful poll writes to the log, in order: the progress
    display, then the effects of the terminal branch if one is taken.
    [h] is [state.pollingTimer] as the handler finds it. *)
Definition cancel_effects (me : actor) (h : option nat) : list (actor * effect) :=
  match h with
  | Some id => [(me, ClearInterval id)]
  | None => []
  end.

Definition progress_effects (me : actor) (job : jsobject) (elapsed : Z)
  : list (actor * effect) :=
  [ (me, SetProgressWidth (to_string (progress job) ++ lit "%"));
    (me, SetStatusMessage (message job));
    (me, SetStatusTime elapsed) ].

(** The text of the toast of a failed job: [job.error || t('failed')]. *)
Definition failure_text (lang : jsstring) (job : jsobject) : text :=
  Text (to_string (js_or (error job) (JStr (t lang "failed")))).

(** Whether a successful poll gets as far as [state.currentJob = job]:
    not when the toast of a failed job throws. *)
Definition reaches_assignment (w : world) (job : jsobject) : bool :=
  if strict_eq_lit (status job) "completed" then true
  else if strict_eq_lit (status job) "failed"
       then toast_builds w (failure_text (language w) job)
  else true.

Definition terminal_effects (me : actor) (w : world) (job : jsobject)
  : list (actor * effect) :=
  let lang := language w in
  let h := pollingTimer w in
  if strict_eq_lit (status job) "completed" then
    cancel_effects me h ++
    [ (me, SetBadge "status-badge completed" (t lang "completed"));
      (me, ShowResult job);
      (me, ShowToast (Text (t lang "completed" ++ lit "!")) ToastSuccess);
      (me, AddToHistory job) ]
  else if strict_eq_lit (status job) "failed" then
    cancel_effects me h ++
    [ (me, SetBadge "status-badge failed" (t lang "failed"));
      (me, if toast_builds w (failure_text lang job)
           then ShowToast (failure_text lang job) ToastError
           else ConsoleError toast_failure) ]
  else [].

(** The interval table after [clearInterval(h)]. *)
Definition cancelled (h : option nat) (m : gmap nat closure) : gmap nat closure :=
  match h with
  | Some id => delete id m
  | None => m
  end.

(** ** Sample runs *)

Definition no_files : form_inputs := FormInputs false false false [].

Definition job_record (id st : string) (pr : Z) (url err : jsval) : jsobject :=
  JsObject (JStr (lit id)) (JStr (lit "face")) (JStr (lit st)) (JNum pr)
           (JStr (lit st)) url err JUndefined.

Definition submission_accepted (id : string) : fetch_result :=
  HttpResponse true
    (BodyObject (JsObject (JStr (lit id)) JUndefined JUndefined JUndefined
                          JUndefined JUndefined JUndefined JUndefined)).

Definition status_response (job : jsobject) : fetch_result :=
  HttpResponse true (BodyObject job).

(** A face job is submitted and accepted at time 1000: interval 1 is
    active and the first status fetch (request 1) is pending. *)
Definition polling_events : list event :=
  [ Submit Face no_files; SubmitSettled 0 (submission_accepted "job-1") 1000 ].

Definition polling_world : world :=
  default (loaded []) (run polling_events (loaded (lit "en"))).

(** The same, with the form submitted a second time and not settled. *)
Definition resubmitted_world : world :=
  default (loaded []) (run (polling_events ++ [Submit Face no_files]) (loaded (lit "en"))).

Definition with_detail (d : jsval) : jsobject :=
  JsObject JUndefined JUndefined JUndefined JUndefined
           JUndefined JUndefined JUndefined d.

Definition completed_job : jsobject :=
  job_record "job-1" "completed" 100 (JStr (lit "/storage/faces/job-1.png")) JNull.

Definition failed_job : jsobject :=
  job_record "job-1" "failed" 0 JNull (JStr (lit "upstream timeout")).

Definition processing_job : jsobject :=
  job_record "job-1" "processing" 40 JNull JNull.

(** A failed record whose error text opens an HTML comment. *)
Definition markup_failed_job : jsobject :=
  job_record "job-1" "failed" 0 JNull (JStr (lit "<!--")).

(** The body of a response that is not JSON, with the engine's message. *)
Definition not_json : json_body := BodyInvalid (lit "Unexpected end of JSON input").


(** ** The invariant of the event loop *)

Record inv (w : world) : Prop := Inv {
  inv_next : (1 <= next_interval w)%nat;
  inv_active : forall id c,
    intervals w !! id = Some c -> pollingTimer w = Some id /\ c_session c = id;
  inv_handle : forall id,
    pollingTimer w = Some id -> (1 <= id < next_interval w)%nat;
  inv_inflight : forall req c,
    inflight w !! req = Some c ->
    (c_session c < next_interval w)%nat /\ (req < next_request w)%nat;
  inv_log : forall s e,
    In (Poller s, e) (log w) -> (s < next_interval w)%nat
}.

(** The log entries that display an elapsed time. *)
Definition shows_elapsed (x : actor * effect) : bool :=
  match x with
  | (Poller _, SetStatusTime _) => true
  | _ => false
  end.

(** The state of a session started at [start], seen at a moment when the
    clock has last read [last]. *)
Record session_ok (s : nat) (start last : Z) (w : world) : Prop := SessionOk {
  so_inv : inv w;
  so_known : (s < next_interval w)%nat;
  so_clock : start <= last;
  so_active : forall id c,
    intervals w !! id = Some c -> c_session c = s -> c_startTime c = start;
  so_pending : forall req c,
    inflight w !! req = Some c -> c_session c = s -> c_startTime c = start;
  so_sorted : StronglySorted Z.le (elapsed_shown s (log w));
  so_bound : Forall (fun e => 0 <= e <= round_seconds (last - start))
                    (elapsed_shown s (log w))
}.

(** The clock as the handler of [e] reads it, [last] when it does not. *)
Definition reading (e : event) (last : Z) : Z :=
  match e with
  | SubmitSettled _ _ now | PollSettled _ _ now => now
  | _ => last
  end.

(** The clock reading of the poll that [e] resumes in [w], when that is
    a poll of [session] and it receives a record; nothing otherwise. *)
Definition poll_reading (session : nat) (e : event) (w : world) : list Z :=
  match e with
  | PollSettled req r now =>
      match inflight w !! req, accepted r with
      | Some c, Some _ => if Nat.eqb (c_session c) session then [now] else []
      | _, _ => []
      end
  | _ => []
  end.

(** The clock readings of the successful polls of [session] along the
    run of [evs] from [w], in order. *)
Fixpoint session_polls (session : nat) (evs : list event) (w : world) : list Z :=
  match evs with
  | [] => []
  | e :: evs' =>
      match step e w with
      | Some w' => poll_reading session e w ++ session_polls session evs' w'
      | None => []
      end
  end.

(** The face form is submitted and the request is pending. *)
Definition submitted_world : world :=
  default (loaded []) (run [Submit Face no_files] (loaded (lit "en"))).

(** The job of [polling_world] polled four times, about every two
    seconds, until it completes; the third status fetch fails. *)
Definition four_polls : list event :=
  [ PollSettled 1 (status_response processing_job) 1400;
    Tick 1;
    PollSettled 2 (status_response processing_job) 3600;
    Tick 1;
    PollSettled 3 NetworkError 5500;
    Tick 1;
    PollSettled 4 (status_response completed_job) 7700 ].

Definition four_polls_world : world :=
  default (loaded []) (run four_polls polling_world).

(** The two scenarios of the specification: a job that is processing at
    the first tick and completed at the second, and a job whose status
    fetch fails three times before it reports failure. *)
Definition completes_at_second_tick : list event :=
  polling_events ++
  [ PollSettled 1 (status_response processing_job) 1100;
    Tick 1;
    PollSettled 2 (status_response completed_job) 3100 ].

Definition fails_after_three_errors : list event :=
  polling_events ++
  [ PollSettled 1 NetworkError 1100;
    Tick 1; PollSettled 2 NetworkError 3100;
    Tick 1; PollSettled 3 NetworkError 5100;
    Tick 1; PollSettled 4 (status_response failed_job) 7100 ].

Definition console_errors (l : list (actor * effect)) : nat :=
  length (List.filter (fun x => match snd x with ConsoleError _ => true | _ => false end) l).

(** ** Further classification and sample runs *)

(** The events whose handler can call [clearInterval]: an accepted
    submission (through [startJobPolling]) and a status response that
    carries a terminal record. *)
Definition may_cancel (e : event) : bool :=
  match e with
  | SubmitSettled _ r _ =>
      match accepted r with Some _ => true | None => false end
  | PollSettled _ r _ =>
      match accepted r with Some job => is_terminal job | None => false end
  | _ => false
  end.

(** A second job is submitted and accepted while the first status fetch
    of the first job (request 1) is still pending: interval 2 is active. *)
Definition superseded_events : list event :=
  polling_events ++
  [ Submit Face no_files; SubmitSettled 2 (submission_accepted "job-2") 2000 ].

Definition superseded_world : world :=
  default (loaded []) (run superseded_events (loaded (lit "en"))).

Definition both_files : form_inputs := FormInputs true true false [].

(** ** History ([addToHistory]) *)

(** What [addToHistory] builds for a job: the thumbnail's source, whether
    it is a video, the type and time shown, and the job that a click on
    the item passes to [showResult]. *)
Record history_item := HistoryItem {
  item_src : jsstring;
  item_is_video : bool;
  item_type : jsstring;
  item_time : jsstring;
  item_job : jsobject
}.

(** The child nodes of [elements.historyList]: text between the tags,
    the '.history-empty' message, and the items.  The message is taken
    to be a child of the list itself. *)
Inductive history_node : Type :=
  | TextNode
  | EmptyMessage
  | Item (it : history_item).

Definition is_element (n : history_node) : bool :=
  match n with TextNode => false | _ => true end.

(** [historyList.children]: the element children, in order. *)
Definition children (nodes : list history_node) : list history_node :=
  List.filter is_element nodes.

(** [querySelector('.history-empty')] and [emptyMsg.remove()]: the first
    such element, if there is one, is taken out. *)
Fixpoint remove_empty_message (nodes : list history_node) : list history_node :=
  match nodes with
  | [] => []
  | EmptyMessage :: nodes' => nodes'
  | n :: nodes' => n :: remove_empty_message nodes'
  end.

(** [while (children.length > 10) removeChild(lastChild)]: every turn
    removes the last child node, text included; [fuel] bounds the number
    of turns. *)
Fixpoint drop_excess (fuel : nat) (nodes : list history_node) : list history_node :=
  match fuel with
  | O => nodes
  | S fuel' =>
      if Nat.ltb 10 (length (children nodes))
      then drop_excess fuel' (removelast nodes)
      else nodes
  end.

Definition new_item (origin time : jsstring) (job : jsobject) : history_item :=
  let resultUrl := origin ++ to_string (result_url job) in
  let isVideo := negb (strict_eq_lit (job_type job) "face") in
  HistoryItem resultUrl isVideo (to_string (job_type job)) time job.

(** [addToHistory(job)] on the child nodes of the history list.  [origin]
    is what [getBackendOrigin()] returns and [time] what
    [new Date().toLocaleTimeString()] returns at the call. *)
Definition addToHistory (origin time : jsstring) (job : jsobject)
    (nodes : list history_node) : list history_node :=
  let nodes := remove_empty_message nodes in
  let nodes := Item (new_item origin time job) :: nodes in
  drop_excess (length nodes) nodes.

(** Calls of [addToHistory], oldest first. *)
Definition add_all (calls : list (jsstring * jsstring * jsobject))
    (nodes : list history_node) : list history_node :=
  fold_left (fun nodes call =>
               addToHistory (fst (fst call)) (snd (fst call)) (snd call) nodes)
            calls nodes.

Definition item_of_call (call : jsstring * jsstring * jsobject) : history_node :=
  Item (new_item (fst (fst call)) (snd (fst call)) (snd call)).

(** ** The result panel ([showResult]) *)

Record result_view := ResultView {
  resultDisplay_hidden : bool;
  resultImage_src : jsstring;
  resultImage_hidden : bool;
  resultVideo_src : jsstring;
  resultVideo_hidden : bool;
  continueBtn_hidden : bool;
  continueBtn_text : jsstring;
  continueBtn_onclick : bool;     (* the handler that switches to lip sync is set *)
  downloadLink_href : jsstring;
  downloadLink_download : jsstring
}.

(** [showResult(job)].  [tr] is [t] of [app.js] at the current language
    (the keys used here are outside the table embedded above) and
    [origin] is what [getBackendOrigin()] returns. *)
Definition showResult (tr : string -> jsstring) (origin : jsstring) (job : jsobject)
    (v : result_view) : result_view :=
  let resultUrl := origin ++ to_string (result_url job) in
  let download :=
    to_string (job_type job) ++ lit "_" ++ to_string (job_id job) ++ lit "." ++
    (if strict_eq_lit (job_type job) "face" then lit "png" else lit "mp4") in
  if strict_eq_lit (job_type job) "face" then
    ResultView false
               resultUrl false
               (resultVideo_src v) true
               false (tr "continueToVideo"%string) (continueBtn_onclick v)
               resultUrl download
  else if strict_eq_lit (job_type job) "video" then
    ResultView false
               (resultImage_src v) true
               resultUrl false
               false (tr "continueToLipSync"%string) true
               resultUrl download
  else
    ResultView false
               (resultImage_src v) true
               resultUrl false
               true (continueBtn_text v) (continueBtn_onclick v)
               resultUrl download.

(** Calls of [showResult], oldest first. *)
Definition show_all (tr : string -> jsstring) (calls : list (jsstring * jsobject))
    (v : result_view) : result_view :=
  fold_left (fun v call => showResult tr (fst call) (snd call) v) calls v.

(** ** Theme ([setTheme] and the toggle of [initTheme]) *)

Record theme_view := ThemeView {
  state_theme : jsstring;               (* state.theme *)
  stored_theme : option jsstring;       (* localStorage 'theme', None = unset *)
  dataset_theme : jsstring;             (* documentElement.dataset.theme *)
  themeText : option jsstring           (* text of '.theme-text', None = no such element *)
}.

(** [setTheme(theme)]; [darkMode] and [lightMode] are the two labels of
    the current language's table. *)
Definition setTheme (darkMode lightMode : jsstring) (theme : jsstring)
    (v : theme_view) : theme_view :=
  ThemeView theme (Some theme) theme
    (match themeText v with
     | Some _ => Some (if bool_decide (theme = lit "dark") then darkMode else lightMode)
     | None => None
     end).

(** The click handler of the theme toggle. *)
Definition toggleTheme (darkMode lightMode : jsstring) (v : theme_view) : theme_view :=
  let newTheme := if bool_decide (state_theme v = lit "dark")
                  then lit "light" else lit "dark" in
  setTheme darkMode lightMode newTheme v.

(** ** Settings ([saveSettings], [sendSettingsToBackend] and the form) *)








(** The cause a submit function catches on a response that is not 2xx:
    the response's [detail] when that is truthy, 'Generation failed' when
    it is not, and the engine's own message when the error body is not
    JSON or is null. *)
Definition failure_cause (body : json_body) : text :=
  match body with
  | BodyObject o =>
      Text (if truthy (detail o) then to_string (detail o)
            else lit "Generation failed")
  | BodyInvalid m => NativeMessage (JsonSyntax m)
  | BodyNull => NativeMessage (NullProperty "detail")
  end.

(** * Properties *)

(** ** The invariant is kept *)

Arguments lit : simpl never.
Arguments t : simpl never.
Arguments to_string : simpl never.
Arguments startJobPolling : simpl never.
Arguments poll_issue : simpl never.
Arguments poll_resume : simpl never.
Arguments submit_resume : simpl never.
Arguments step : simpl never.

Ltac unfold_handlers :=
  unfold submit_resume, submit, submitFaceGeneration, submitVideoGeneration,
    submitLipsyncGeneration, required_toast, submit_issue, startJobPolling,
    clear_previous_polling, poll_resume, poll_issue, setApiBase, showToast,
    clearInterval, setInterval, await_fetch, await_json, deref,
    try_finally, try_catch, bind, emit, modify, get, throw, ret in *.

Ltac world_fields :=
  cbn [toast_parser API_BASE language pollingTimer currentJob intervals next_interval inflight
       next_request submitting log set_API_BASE set_pollingTimer set_currentJob
       set_intervals set_inflight set_next_request set_submitting set_log
       fst snd] in *.

(** The fixed texts of the page have no markup, so their toasts are built. *)
Lemma plain_app a b : plain (a ++ b) = plain a && plain b.
Proof. unfold plain. rewrite existsb_app. by destruct (existsb _ a), (existsb _ b). Qed.

Lemma t_plain lang key :
  In key ["required"; "startImage"; "drivingVideo"; "sourceVideo"; "speechText";
          "processing"; "completed"; "failed"; "settingsSaved"]%string ->
  plain (t lang key) = true.
Proof.
  intros H. unfold t, window_translations.
  repeat case_bool_decide; cbn [default];
    repeat (destruct H as [<-|H]; [vm_compute; reflexivity|]); destruct H.
Qed.

Arguments plain : simpl never.
Arguments toast_builds : simpl never.

Lemma toast_builds_plain w s : plain s = true -> toast_builds w (Text s) = true.
Proof. unfold toast_builds. by intros ->. Qed.

Lemma toast_builds_completed w lang :
  toast_builds w (Text (t lang "completed" ++ lit "!")) = true.
Proof.
  apply toast_builds_plain. rewrite plain_app, t_plain; [reflexivity|].
  cbn. tauto.
Qed.

Lemma toast_builds_processing w lang :
  toast_builds w (Text (t lang "processing" ++ lit "...")) = true.
Proof.
  apply toast_builds_plain. rewrite plain_app, t_plain; [reflexivity|].
  cbn. tauto.
Qed.

Lemma toast_builds_required w lang key :
  In key ["startImage"; "drivingVideo"; "sourceVideo"; "speechText"]%string ->
  toast_builds w (Text (t lang key ++ lit " " ++ t lang "required")) = true.
Proof.
  intros H. apply toast_builds_plain.
  rewrite !plain_app, !t_plain; [reflexivity|cbn; tauto|cbn in *; tauto].
Qed.

(** What any settled poll does to the page, whatever the response. *)
Lemma poll_resume_frame c r now w :
  let w' := snd (poll_resume c r now w) in
  next_interval w' = next_interval w /\
  inflight w' = inflight w /\
  next_request w' = next_request w /\
  submitting w' = submitting w /\
  pollingTimer w' = pollingTimer w /\
  (intervals w' = intervals w \/
   exists id, pollingTimer w = Some id /\ intervals w' = delete id (intervals w)) /\
  exists l, log w' = log w ++ l /\ Forall (fun x => fst x = Poller (c_session c)) l.
Proof.
  destruct r as [|[|] [m| |job]]; unfold_handlers; cbn;
    try (repeat split; eauto 10 using Forall_cons, Forall_nil; fail).
  destruct (strict_eq_lit (status job) "completed");
    [|destruct (strict_eq_lit (status job) "failed")];
    destruct (pollingTimer w) as [id|] eqn:Hh; cbn;
    rewrite ?toast_builds_completed; try destruct (toast_builds _ _);
    cbn; rewrite <- ?app_assoc; cbn;
    repeat split; eauto 10; try (right; eauto; fail);
    eexists; split; try reflexivity; repeat constructor.
Qed.

Lemma poll_issue_frame c w :
  let w' := snd (poll_issue c w) in
  fst (poll_issue c w) = Normal tt /\
  next_interval w' = next_interval w /\
  intervals w' = intervals w /\
  pollingTimer w' = pollingTimer w /\
  currentJob w' = currentJob w /\
  submitting w' = submitting w /\
  inflight w' = <[next_request w := c]> (inflight w) /\
  next_request w' = S (next_request w) /\
  log w' = log w ++ [(Poller (c_session c),
                      Fetch "GET" (API_BASE w ++ lit "/jobs/" ++ to_string (c_jobId c)))].
Proof. unfold_handlers; cbn. repeat split. Qed.

Lemma startJobPolling_frame jobId jobType now w :
  let n := next_interval w in
  let poll := Closure n jobId now in
  let w' := snd (startJobPolling jobId jobType now w) in
  fst (startJobPolling jobId jobType now w) = Normal tt /\
  pollingTimer w' = Some n /\
  currentJob w' = Some (JsObject jobId jobType JUndefined JUndefined
                                 JUndefined JUndefined JUndefined JUndefined) /\
  next_interval w' = S n /\
  intervals w' = <[n := poll]> (after_clear w) /\
  inflight w' = <[next_request w := poll]> (inflight w) /\
  next_request w' = S (next_request w) /\
  submitting w' = submitting w /\
  log w' = log w ++ clear_log (Poller n) w ++
           [ (Poller n, ShowStatusPanel);
             (Poller n, SetBadge "status-badge processing" (t (language w) "processing"));
             (Poller n, Fetch "GET" (API_BASE w ++ lit "/jobs/" ++ to_string jobId)) ].
Proof.
  unfold after_clear, clear_log. unfold_handlers. unfold handle_truthy.
  destruct (pollingTimer w) as [[|id]|]; cbn; rewrite <- ?app_assoc; cbn;
    repeat split.
Qed.

Lemma inv_no_handle w : inv w -> pollingTimer w = None -> intervals w = ∅.
Proof.
  intros Hi Hn. apply map_empty. intros id.
  destruct (intervals w !! id) as [c|] eqn:E; [|done].
  apply (inv_active _ Hi) in E as [E _]. congruence.
Qed.

Lemma inv_delete_handle w id :
  inv w -> pollingTimer w = Some id -> delete id (intervals w) = ∅.
Proof.
  intros Hi Hh. apply map_empty. intros j.
  destruct (decide (j = id)) as [->|Hne].
  - apply lookup_delete_eq.
  - rewrite lookup_delete_ne by done.
    destruct (intervals w !! j) as [c|] eqn:E; [|done].
    apply (inv_active _ Hi) in E as [E _]. congruence.
Qed.

Lemma inv_after_clear w : inv w -> after_clear w = ∅.
Proof.
  intros Hi. unfold after_clear.
  destruct (pollingTimer w) as [id|] eqn:Hh.
  - pose proof (inv_handle _ Hi _ Hh) as Hr.
    destruct (Nat.eqb_spec id 0); [lia|]. by apply inv_delete_handle.
  - by apply inv_no_handle.
Qed.

Lemma clear_log_not_poll_effect me w x :
  In x (clear_log me w) -> fst x = me.
Proof.
  unfold clear_log. destruct (pollingTimer w) as [id|]; [|done].
  destruct (Nat.eqb id 0); [done|]. intros [<-|[]]. done.
Qed.

Lemma startJobPolling_inv jobId jobType now w :
  inv w -> inv (snd (startJobPolling jobId jobType now w)).
Proof.
  intros Hi.
  destruct (startJobPolling_frame jobId jobType now w)
    as (_ & Hh & _ & Hn & Hiv & Hfl & Hr & _ & Hl).
  cbv zeta in *. rewrite (inv_after_clear _ Hi) in Hiv.
  pose proof (inv_next _ Hi).
  constructor.
  - rewrite Hn. lia.
  - intros id c. rewrite Hiv, Hh. intros E.
    apply lookup_insert_Some in E as [[<- <-]|[_ E]]; [done|].
    by rewrite lookup_empty in E.
  - intros id. rewrite Hh, Hn. intros [= <-]. lia.
  - intros req c. rewrite Hfl, Hn, Hr. intros E.
    apply lookup_insert_Some in E as [[<- <-]|[_ E]]; cbn; [lia|].
    apply (inv_inflight _ Hi) in E. lia.
  - intros s e. rewrite Hl, Hn. intros Hin.
    apply in_app_or in Hin as [Hin|Hin].
    { apply (inv_log _ Hi) in Hin. lia. }
    apply in_app_or in Hin as [Hin|Hin].
    { apply clear_log_not_poll_effect in Hin. cbn in Hin. injection Hin as <-. lia. }
    cbn in Hin. destruct Hin as [Hin|[Hin|[Hin|[]]]]; injection Hin as <- _; lia.
Qed.

Lemma inv_log_Forall w : inv w -> Forall (tagged_below (next_interval w)) (log w).
Proof.
  intros Hi. apply List.Forall_forall. intros [[s|] e] Hin; unfold tagged_below; cbn; [|done].
  by apply (inv_log _ Hi) in Hin.
Qed.

Lemma inv_of_fields w w' :
  inv w ->
  next_interval w' = next_interval w ->
  pollingTimer w' = pollingTimer w ->
  (forall id c, intervals w' !! id = Some c -> intervals w !! id = Some c) ->
  (forall req c, inflight w' !! req = Some c ->
     (c_session c < next_interval w)%nat /\ (req < next_request w')%nat) ->
  Forall (tagged_below (next_interval w)) (log w') ->
  inv w'.
Proof.
  intros Hi Hn Hh Hiv Hfl Hl. constructor.
  - rewrite Hn. apply (inv_next _ Hi).
  - intros id c E. rewrite Hh. apply (inv_active _ Hi), Hiv, E.
  - intros id. rewrite Hh, Hn. apply (inv_handle _ Hi).
  - intros req c E. rewrite Hn. by apply Hfl.
  - intros s e Hin. rewrite Hn.
    rewrite List.Forall_forall in Hl. apply (Hl _ Hin).
Qed.

Lemma inv_set_log w l :
  inv w -> Forall (tagged_below (next_interval w)) l ->
  inv (set_log (log w ++ l) w).
Proof.
  intros Hi Hl. apply (inv_of_fields w); try done; cbn.
  - apply (inv_inflight _ Hi).
  - apply Forall_app. split; [by apply inv_log_Forall|done].
Qed.

Lemma inv_set_submitting w m : inv w -> inv (set_submitting m w).
Proof.
  intros Hi. apply (inv_of_fields w); try done; cbn.
  - apply (inv_inflight _ Hi).
  - by apply inv_log_Forall.
Qed.

Lemma inv_set_API_BASE w b : inv w -> inv (set_API_BASE b w).
Proof.
  intros Hi. apply (inv_of_fields w); try done; cbn.
  - apply (inv_inflight _ Hi).
  - by apply inv_log_Forall.
Qed.

Lemma poll_issue_inv c w :
  inv w -> (c_session c < next_interval w)%nat -> inv (snd (poll_issue c w)).
Proof.
  intros Hi Hc.
  destruct (poll_issue_frame c w) as (_ & Hn & Hiv & Hh & _ & _ & Hfl & Hr & Hl).
  cbv zeta in *. apply (inv_of_fields w); try done.
  - intros req c'. rewrite Hfl, Hr. intros E.
    apply lookup_insert_Some in E as [[<- <-]|[_ E]]; [lia|].
    apply (inv_inflight _ Hi) in E. lia.
  - rewrite Hl. apply Forall_app. split; [by apply inv_log_Forall|].
    constructor; [|constructor]. done.
Qed.

Lemma poll_resume_inv c r now w :
  inv w -> (c_session c < next_interval w)%nat -> inv (snd (poll_resume c r now w)).
Proof.
  intros Hi Hc.
  destruct (poll_resume_frame c r now w) as (Hn & Hfl & Hr & _ & Hh & Hiv & l & Hl & Hall).
  cbv zeta in *. apply (inv_of_fields w); try done.
  - intros id c'. destruct Hiv as [->|(h & _ & ->)]; [done|].
    intros E. apply lookup_delete_Some in E as [_ E]. done.
  - intros req c'. rewrite Hfl, Hr. apply (inv_inflight _ Hi).
  - rewrite Hl. apply Forall_app. split; [by apply inv_log_Forall|].
    eapply Forall_impl; [exact Hall|]. intros [a e] Ha. cbn in Ha. subst a. done.
Qed.

(** The two ways a settled submission can end: the job is accepted and
    polling starts, or an error toast is shown and nothing else happens. *)
Lemma submit_resume_cases k r now w :
  submit_resume k r now w =
  match accepted r with
  | Some data =>
      let w1 := set_log (log w ++ [(Page, ShowToast (Text (t (language w) "processing" ++ lit "..."))
                                                   ToastSuccess)]) w in
      let w2 := snd (startJobPolling (job_id data) (JStr (lit (kind_name k))) now w1) in
      (Normal tt, set_log (log w2 ++ [(Page, SetButtonLoading k false)]) w2)
  | None =>
      (rejected_completion w r, set_log (log w ++ rejected_effects w k r) w)
  end.
Proof.
  unfold rejected_effects, rejected_completion.
  destruct r as [|[|] [m| |o]]; cbn [accepted submit_error];
    try (unfold_handlers; cbn; rewrite ?toast_builds_processing; cbn;
         match goal with
         | |- context [toast_builds ?w' ?m] =>
             change (toast_builds w' m) with (toast_builds w m)
         end;
         destruct (toast_builds w _); cbn; rewrite <- ?app_assoc; reflexivity).
  unfold submit_resume, try_finally, try_catch, bind, await_fetch, await_json, deref,
    ret, get, showToast, emit, modify. cbn. rewrite toast_builds_processing.
  pose proof (startJobPolling_frame (job_id o) (JStr (lit (kind_name k))) now
    (set_log (log w ++ [(Page, ShowToast (Text (t (language w) "processing" ++ lit "...")) ToastSuccess)]) w))
    as (Hc & _).
  destruct (startJobPolling _ _ _ _) as [c w2]. cbn in Hc. subst c.
  reflexivity.
Qed.

Arguments required_toast : simpl never.

Lemma required_toast_run key w :
  In key ["startImage"; "drivingVideo"; "sourceVideo"; "speechText"]%string ->
  required_toast key w =
  (Normal tt,
   set_log (log w ++ [(Page, ShowToast (Text (t (language w) key ++ lit " " ++
                                              t (language w) "required")) ToastError)]) w).
Proof.
  intros H. unfold required_toast, showToast, bind, get, emit, modify. cbn.
  by rewrite toast_builds_required.
Qed.

Lemma submit_cases k f w :
  (exists key,
     snd (submit k f w) =
     set_log (log w ++ [(Page, ShowToast (Text (t (language w) key ++ lit " " ++
                                                t (language w) "required")) ToastError)]) w)
  \/
  snd (submit k f w) =
  set_next_request (S (next_request w))
    (set_submitting (<[next_request w := k]> (submitting w))
       (set_log (log w ++ [(Page, SetButtonLoading k true);
                           (Page, Fetch "POST" (API_BASE w ++ lit (endpoint k)))]) w)).
Proof.
  destruct k; unfold submit, submitFaceGeneration, submitVideoGeneration,
    submitLipsyncGeneration.
  - right. unfold_handlers. cbn. by rewrite <- app_assoc.
  - destruct (uploaded_video f); cbn;
      [|left; eexists; rewrite required_toast_run by (cbn; tauto); reflexivity].
    destruct (uploaded_videoMotion f); cbn;
      [|left; eexists; rewrite required_toast_run by (cbn; tauto); reflexivity].
    right. unfold_handlers. cbn. by rewrite <- app_assoc.
  - destruct (uploaded_lipsync f); cbn;
      [|left; eexists; rewrite required_toast_run by (cbn; tauto); reflexivity].
    destruct (trim (lipsync_text f));
      [left; eexists; rewrite required_toast_run by (cbn; tauto); reflexivity|].
    right. unfold_handlers. cbn. by rewrite <- app_assoc.
Qed.

Lemma rejected_effects_page w k r :
  Forall (fun x => fst x = Page) (rejected_effects w k r).
Proof.
  unfold rejected_effects.
  destruct r as [|[|] [m| |o]]; destruct (toast_builds w _); repeat constructor.
Qed.

Lemma page_effects_below n l :
  Forall (fun x => fst x = Page) l -> Forall (tagged_below n) l.
Proof.
  intros H. eapply Forall_impl; [exact H|].
  intros [a e] Ha. cbn in Ha. subst a. done.
Qed.

Lemma inv_bump_request w m :
  inv w -> inv (set_next_request (S (next_request w)) (set_submitting m w)).
Proof.
  intros Hi. apply (inv_of_fields w); try done; cbn.
  - intros req c E. apply (inv_inflight _ Hi) in E. lia.
  - by apply inv_log_Forall.
Qed.

Lemma setApiBase_frame loc url w :
  exists b, setApiBase loc url w = (Normal tt, set_API_BASE b w).
Proof.
  unfold setApiBase. destruct (trim (default [] url)); eexists; reflexivity.
Qed.

Lemma step_inv e w w' : inv w -> step e w = Some w' -> inv w'.
Proof.
  intros Hi Hs. destruct e as [loc url|k f|req r now|id|req r now]; unfold step in Hs.
  - destruct (setApiBase_frame loc url w) as [b Hb]. rewrite Hb in Hs.
    injection Hs as <-. apply (inv_of_fields w); try done; cbn.
    + apply (inv_inflight _ Hi).
    + by apply inv_log_Forall.
  - injection Hs as <-.
    destruct (submit_cases k f w) as [[key ->]| ->].
    + apply inv_set_log; [done|]. apply page_effects_below. repeat constructor.
    + apply inv_bump_request with (w := set_log _ w).
      apply inv_set_log; [done|]. apply page_effects_below. repeat constructor.
  - destruct (submitting w !! req) as [k|]; [|done]. injection Hs as <-.
    rewrite submit_resume_cases.
    pose proof (inv_set_submitting w (delete req (submitting w)) Hi) as Hi'.
    destruct (accepted r) as [data|]; cbv zeta; unfold snd at 1.
    + apply inv_set_log.
      * apply startJobPolling_inv. apply inv_set_log; [exact Hi'|].
        apply page_effects_below. repeat constructor.
      * apply page_effects_below. repeat constructor.
    + apply inv_set_log; [exact Hi'|].
      apply page_effects_below, rejected_effects_page.
  - destruct (intervals w !! id) as [c|] eqn:E; [|done]. injection Hs as <-.
    apply poll_issue_inv; [done|].
    pose proof (inv_active _ Hi _ _ E) as [Hh ->].
    apply (inv_handle _ Hi) in Hh. lia.
  - destruct (inflight w !! req) as [c|] eqn:E; [|done]. injection Hs as <-.
    apply poll_resume_inv.
    + apply (inv_of_fields w); try done; cbn.
      * intros req' c' E'. apply lookup_delete_Some in E' as [_ E'].
        by apply (inv_inflight _ Hi).
      * by apply inv_log_Forall.
    + cbn. by apply (inv_inflight _ Hi) in E as [E _].
Qed.

Lemma run_inv evs : forall w w', inv w -> run evs w = Some w' -> inv w'.
Proof.
  induction evs as [|e evs IH]; intros w w' Hi Hr; cbn in Hr.
  - by injection Hr as <-.
  - destruct (step e w) as [w1|] eqn:Hs; [|done].
    eapply IH; [|exact Hr]. eapply step_inv; eauto.
Qed.

Lemma loaded_inv parser lang : inv (loaded_in parser lang).
Proof.
  constructor; cbn; done.
Qed.

Lemma reachable_inv w : reachable w -> inv w.
Proof.
  intros (parser & lang & evs & Hr). eapply run_inv; [apply loaded_inv|exact Hr].
Qed.

Lemma run_app evs1 : forall evs2 w,
  run (evs1 ++ evs2) w = match run evs1 w with
                         | Some w1 => run evs2 w1
                         | None => None
                         end.
Proof.
  induction evs1 as [|e evs1 IH]; intros evs2 w; cbn; [done|].
  destruct (step e w); [apply IH|done].
Qed.

Lemma reachable_run evs w w' : reachable w -> run evs w = Some w' -> reachable w'.
Proof.
  intros (parser & lang & evs0 & Hr) Hr'. exists parser, lang, (evs0 ++ evs).
  by rewrite run_app, Hr.
Qed.

(** ** Sample runs are runs *)

Lemma polling_world_run :
  run polling_events (loaded (lit "en")) = Some polling_world.
Proof. vm_compute. reflexivity. Qed.

Lemma polling_world_reachable : reachable polling_world.
Proof. exists sample_parser, (lit "en"), polling_events. apply polling_world_run. Qed.

(** ** A settled status fetch *)

Lemma step_PollSettled w req poll r now :
  inflight w !! req = Some poll ->
  step (PollSettled req r now) w =
  Some (snd (poll_resume poll r now (set_inflight (delete req (inflight w)) w))).
Proof. intros E. unfold step. by rewrite E. Qed.

Lemma step_Tick w id poll :
  intervals w !! id = Some poll ->
  step (Tick id) w = Some (snd (poll_issue poll w)).
Proof. intros E. unfold step. by rewrite E. Qed.

(** [poll] resumed on a transport failure. *)
Lemma poll_resume_transport_failure poll r now w :
  transport_failure r = true ->
  poll_resume poll r now w =
  (Normal tt,
   set_log (log w ++ [(Poller (c_session poll), ConsoleError (transport_error r))]) w).
Proof. destruct r as [|[|] body]; try discriminate; reflexivity. Qed.

(** [poll] resumed on a 2xx response that carries a record.  The record
    is stored unless the toast of a failed job threw; [poll] catches that
    as any other error. *)
Lemma poll_resume_success poll job now w :
  poll_resume poll (HttpResponse true (BodyObject job)) now w =
  (Normal tt,
   let w1 :=
     set_intervals
        (if is_terminal job then cancelled (pollingTimer w) (intervals w)
         else intervals w)
        (next_interval w)
        (set_log (log w ++
                  progress_effects (Poller (c_session poll)) job
                    (round_seconds (now - c_startTime poll)) ++
                  terminal_effects (Poller (c_session poll)) w job) w) in
   if reaches_assignment w job then set_currentJob (Some job) w1 else w1).
Proof.
  unfold is_terminal, terminal_effects, reaches_assignment, failure_text,
    progress_effects, cancelled, cancel_effects, toast_failure.
  unfold_handlers. cbn.
  destruct (strict_eq_lit (status job) "completed");
    [|destruct (strict_eq_lit (status job) "failed")];
    destruct (pollingTimer w) as [id|] eqn:Hh; cbn;
    rewrite ?toast_builds_completed;
    try match goal with
        | |- context [toast_builds ?w' ?m] =>
            change (toast_builds w' m) with (toast_builds w m);
            destruct (toast_builds w m)
        end;
    cbn; rewrite <- ?app_assoc; cbn; rewrite ?Hh; reflexivity.
Qed.

Lemma terminal_effects_frame me w w' job :
  language w' = language w -> pollingTimer w' = pollingTimer w ->
  toast_parser w' = toast_parser w ->
  terminal_effects me w' job = terminal_effects me w job.
Proof.
  intros Hl Hh Hp. unfold terminal_effects, toast_builds, failure_text.
  by rewrite Hl, Hh, Hp.
Qed.

Lemma reaches_assignment_frame w w' job :
  language w' = language w -> toast_parser w' = toast_parser w ->
  reaches_assignment w' job = reaches_assignment w job.
Proof.
  intros Hl Hp. unfold reaches_assignment, toast_builds, failure_text.
  by rewrite Hl, Hp.
Qed.

(** C3: when the status fetch of a poll fails in transport (the fetch
    rejects, or the response is not 2xx), [poll] completes normally and
    its only effect is one [console.error]: the interval table and the
    handle are untouched, so each active interval fires again, and no
    badge, result, toast, history entry or cancellation happens. *)
Theorem transport_failure_keeps_polling w req poll r now :
  inflight w !! req = Some poll ->
  transport_failure r = true ->
  exists w',
    step (PollSettled req r now) w = Some w' /\
    fst (poll_resume poll r now (set_inflight (delete req (inflight w)) w)) = Normal tt /\
    log w' = log w ++ [(Poller (c_session poll), ConsoleError (transport_error r))] /\
    intervals w' = intervals w /\
    pollingTimer w' = pollingTimer w /\
    currentJob w' = currentJob w /\
    (forall id p, intervals w !! id = Some p ->
                  step (Tick id) w' = Some (snd (poll_issue p w'))).
Proof.
  intros E Hf. eexists. split; [by apply step_PollSettled|].
  rewrite (poll_resume_transport_failure _ _ _ _ Hf).
  repeat split. intros id p Hp. apply step_Tick. exact Hp.
Qed.

Lemma transport_failure_keeps_polling_witness :
  exists w', step (PollSettled 1 (HttpResponse false not_json) 3000) polling_world = Some w'
             /\ intervals w' = intervals polling_world.
Proof.
  assert (Hp : inflight polling_world !! 1%nat =
               Some (Closure 1 (JStr (lit "job-1")) 1000))
    by (vm_compute; reflexivity).
  destruct (transport_failure_keeps_polling polling_world 1 _
              (HttpResponse false not_json) 3000 Hp eq_refl)
    as (w' & Hs & _ & _ & Hiv & _).
  exists w'. split; [exact Hs|exact Hiv].
Defined.

(** C4: when the status fetch succeeds with a record whose status is
    neither 'completed' nor 'failed' (whatever else it is), [poll] shows
    progress, message and elapsed time, stores the record, and leaves the
    interval table and the handle as they were: nothing is cancelled and
    each active interval fires again. *)
Theorem non_terminal_keeps_polling w req poll job now :
  inflight w !! req = Some poll ->
  is_terminal job = false ->
  exists w',
    step (PollSettled req (HttpResponse true (BodyObject job)) now) w = Some w' /\
    log w' = log w ++
      [ (Poller (c_session poll), SetProgressWidth (to_string (progress job) ++ lit "%"));
        (Poller (c_session poll), SetStatusMessage (message job));
        (Poller (c_session poll), SetStatusTime (round_seconds (now - c_startTime poll))) ] /\
    intervals w' = intervals w /\
    pollingTimer w' = pollingTimer w /\
    currentJob w' = Some job /\
    (forall id p, intervals w !! id = Some p ->
                  step (Tick id) w' = Some (snd (poll_issue p w'))).
Proof.
  intros E Ht. eexists. split; [by apply step_PollSettled|].
  rewrite poll_resume_success, Ht.
  assert (Hte : forall me w, terminal_effects me w job = []).
  { intros. unfold terminal_effects. unfold is_terminal in Ht.
    apply orb_false_iff in Ht as [-> ->]. reflexivity. }
  assert (Hra : forall w, reaches_assignment w job = true).
  { intros. unfold reaches_assignment. unfold is_terminal in Ht.
    apply orb_false_iff in Ht as [-> ->]. reflexivity. }
  cbn. rewrite Hte, Hra, ?app_nil_r.
  repeat split. intros id p Hp. apply step_Tick. exact Hp.
Qed.

Lemma non_terminal_keeps_polling_witness :
  exists w', step (PollSettled 1 (status_response processing_job) 1400) polling_world = Some w'
             /\ intervals w' = intervals polling_world
             /\ currentJob w' = Some processing_job.
Proof.
  assert (Hp : inflight polling_world !! 1%nat =
               Some (Closure 1 (JStr (lit "job-1")) 1000))
    by (vm_compute; reflexivity).
  destruct (non_terminal_keeps_polling polling_world 1 _ processing_job 1400
              Hp eq_refl)
    as (w' & Hs & _ & Hiv & _ & Hj & _).
  exists w'. repeat split; assumption.
Defined.

(** A poll that does not get a record only logs the error it caught. *)
Lemma poll_resume_failure poll r now w :
  accepted r = None ->
  exists e, poll_resume poll r now w =
            (Normal tt, set_log (log w ++ [(Poller (c_session poll), ConsoleError e)]) w).
Proof.
  destruct r as [|[|] [m| |job]]; try discriminate; intros _; eexists; reflexivity.
Qed.


Lemma step_currentJob_frame e w w' :
  writes_current_job e = false -> step e w = Some w' -> currentJob w' = currentJob w.
Proof.
  intros Hw Hs. destruct e as [loc url|k f|req r now|id|req r now];
    unfold step in Hs; cbn in Hw.
  - destruct (setApiBase_frame loc url w) as [b Hb]. rewrite Hb in Hs.
    by injection Hs as <-.
  - injection Hs as <-. by destruct (submit_cases k f w) as [[key ->]| ->].
  - destruct (submitting w !! req) as [k|]; [|done]. injection Hs as <-.
    rewrite submit_resume_cases. by destruct (accepted r).
  - destruct (intervals w !! id) as [c|]; [|done]. injection Hs as <-.
    by destruct (poll_issue_frame c w) as (_ & _ & _ & _ & H & _).
  - destruct (inflight w !! req) as [c|]; [|done]. injection Hs as <-.
    destruct (accepted r) eqn:Ha; [done|].
    by destruct (poll_resume_failure c r now
                   (set_inflight (delete req (inflight w)) w) Ha) as [e ->].
Qed.

Lemma run_currentJob_frame evs : forall w w',
  Forall (fun e => writes_current_job e = false) evs ->
  run evs w = Some w' -> currentJob w' = currentJob w.
Proof.
  induction evs as [|e evs IH]; intros w w' Hall Hr; cbn in Hr.
  - by injection Hr as <-.
  - destruct (step e w) as [w1|] eqn:Hs; [|done].
    apply Forall_cons in Hall as [He Hall].
    rewrite (IH _ _ Hall Hr). by eapply step_currentJob_frame.
Qed.

(** A successful poll stores the record when it gets as far as the
    assignment, and leaves [state.currentJob] alone when it does not. *)
Lemma poll_success_currentJob w req poll job now :
  inflight w !! req = Some poll ->
  exists w',
    step (PollSettled req (HttpResponse true (BodyObject job)) now) w = Some w' /\
    currentJob w' = (if reaches_assignment w job then Some job else currentJob w) /\
    intervals w' = (if is_terminal job then cancelled (pollingTimer w) (intervals w)
                    else intervals w) /\
    pollingTimer w' = pollingTimer w.
Proof.
  intros E. eexists. split; [by apply step_PollSettled|].
  rewrite poll_resume_success. cbv zeta. unfold snd.
  rewrite (reaches_assignment_frame w) by reflexivity.
  by destruct (reaches_assignment w job).
Qed.

(** C9 does not hold of the code: the first status fetch of the sample
    session answers with a failed record whose error text is '<!--'.
    [poll] shows progress, cancels the interval and sets the badge; then
    [showToast] throws on the missing close button, [poll]'s [catch] logs
    that, and the assignment to [state.currentJob] is skipped: the record
    stored is still the one [startJobPolling] made up, not the fetched
    one. *)
Theorem failed_toast_skips_current_job :
  exists w',
    step (PollSettled 1 (status_response markup_failed_job) 3100) polling_world = Some w' /\
    intervals w' = ∅ /\
    currentJob w' = currentJob polling_world /\
    currentJob w' <> Some markup_failed_job /\
    log w' = log polling_world ++
      [ (Poller 1, SetProgressWidth (lit "0%"));
        (Poller 1, SetStatusMessage (JStr (lit "failed")));
        (Poller 1, SetStatusTime 2);
        (Poller 1, ClearInterval 1);
        (Poller 1, SetBadge "status-badge failed" (lit "Failed"));
        (Poller 1, ConsoleError toast_failure) ].
Proof.
  eexists. split; [vm_compute; reflexivity|].
  repeat split; try (vm_compute; reflexivity).
  vm_compute. discriminate.
Qed.

(** ** Submission *)

Lemma step_SubmitSettled w req k r now :
  submitting w !! req = Some k ->
  step (SubmitSettled req r now) w =
  Some (snd (submit_resume k r now (set_submitting (delete req (submitting w)) w))).
Proof. intros E. unfold step. by rewrite E. Qed.

(** C8 as the code has it: when the response to a submission is not 2xx,
    [startJobPolling] is not called: handle, intervals, pending status
    fetches, next interval id and current job are unchanged, everything
    logged is the page's own and the last of it re-enables the button.
    The [Error] raised for the response is caught inside the submit
    function: when the toast for its cause can be built, the function
    completes normally after showing that one error toast and re-enabling
    the button. *)
Theorem failed_submission_never_polls w req k body now :
  submitting w !! req = Some k ->
  exists w',
    step (SubmitSettled req (HttpResponse false body) now) w = Some w' /\
    pollingTimer w' = pollingTimer w /\
    intervals w' = intervals w /\
    next_interval w' = next_interval w /\
    inflight w' = inflight w /\
    currentJob w' = currentJob w /\
    (exists l, log w' = log w ++ l ++ [(Page, SetButtonLoading k false)] /\
               Forall (fun x => fst x = Page) l) /\
    (toast_builds w (failure_cause body) = true ->
       fst (submit_resume k (HttpResponse false body) now
              (set_submitting (delete req (submitting w)) w)) = Normal tt /\
       log w' = log w ++
         [ (Page, ShowToast (failure_cause body) ToastError);
           (Page, SetButtonLoading k false) ]).
Proof.
  intros E. eexists. split; [by apply step_SubmitSettled|].
  rewrite submit_resume_cases.
  assert (Hc : submit_error (HttpResponse false body) = failure_cause body).
  { destruct body as [m| |o]; try reflexivity.
    cbn. unfold js_or. by destruct (truthy (detail o)). }
  change (accepted (HttpResponse false body)) with (@None jsobject).
  unfold rejected_effects, rejected_completion. rewrite Hc.
  change (toast_builds (set_submitting (delete req (submitting w)) w) (failure_cause body))
    with (toast_builds w (failure_cause body)).
  cbn [fst snd]. world_fields. repeat split.
  - eexists. split; [reflexivity|].
    destruct (toast_builds w _); repeat constructor.
  - by rewrite H.
  - by rewrite H.
Qed.

Lemma failed_submission_never_polls_witness :
  exists w',
    step (SubmitSettled 2 (HttpResponse false (BodyObject (with_detail (JStr (lit "Invalid prompt")))))
                        5000) resubmitted_world = Some w'
    /\ intervals w' = intervals resubmitted_world
    /\ inflight w' = inflight resubmitted_world
    /\ log w' = log resubmitted_world ++
         [ (Page, ShowToast (failure_cause
                               (BodyObject (with_detail (JStr (lit "Invalid prompt")))))
                            ToastError);
           (Page, SetButtonLoading Face false) ].
Proof.
  assert (Hsub : submitting resubmitted_world !! 2%nat = Some Face)
    by (vm_compute; reflexivity).
  assert (Hb : toast_builds resubmitted_world
                 (failure_cause (BodyObject (with_detail (JStr (lit "Invalid prompt")))))
               = true)
    by (vm_compute; reflexivity).
  destruct (failed_submission_never_polls resubmitted_world 2 Face
              (BodyObject (with_detail (JStr (lit "Invalid prompt")))) 5000 Hsub)
    as (w' & Hs & _ & Hiv & _ & Hfl & _ & _ & Hshown).
  exists w'. split; [exact Hs|]. split; [exact Hiv|]. split; [exact Hfl|].
  exact (proj2 (Hshown Hb)).
Defined.

(** C8 as stated fails: the submit function resumed on a 422 response
    whose body is [{detail: "Invalid prompt"}] completes normally instead
    of throwing, and on an error body without [detail] the cause shown is
    the fixed text 'Generation failed'. *)
Lemma failed_submission_is_not_rejected :
  fst (submit_resume Face
         (HttpResponse false (BodyObject (with_detail (JStr (lit "Invalid prompt")))))
         5000 (loaded (lit "en"))) = Normal tt
  /\ log (snd (submit_resume Face (HttpResponse false (BodyObject empty_object))
                 5000 (loaded (lit "en")))) =
     [ (Page, ShowToast (Text (lit "Generation failed")) ToastError);
       (Page, SetButtonLoading Face false) ].
Proof. repeat split; vm_compute; reflexivity. Qed.

(** ** API base *)

(** C10: [getBackendOrigin] never throws, whatever [API_BASE] holds and
    whatever the URL parser does with it: it returns the origin of the
    parsed URL when [new URL(API_BASE)] succeeds and
    'http://localhost:8000' when it throws, and changes nothing. *)
Theorem getBackendOrigin_total (URL : Type) (new_URL : jsstring -> completion URL)
    (URL_origin : URL -> jsstring) (w : world) :
  getBackendOrigin URL new_URL URL_origin w =
  (Normal (match new_URL (API_BASE w) with
           | Normal u => URL_origin u
           | Throw _ => lit "http://localhost:8000"
           end), w).
Proof.
  unfold getBackendOrigin, try_catch, bind, get, ret.
  destruct (new_URL (API_BASE w)); reflexivity.
Qed.

Lemma replace_trailing_slash_spec s :
  replace_trailing_slash s = if ends_with_slash s then removelast s else s.
Proof.
  unfold ends_with_slash. induction s as [|c [|d s'] IH].
  - reflexivity.
  - cbn. by destruct (c =? slash)%N.
  - change (replace_trailing_slash (c :: d :: s')) with (c :: replace_trailing_slash (d :: s')).
    rewrite IH. change (last (c :: d :: s')) with (last (d :: s')).
    change (removelast (c :: d :: s')) with (c :: removelast (d :: s')).
    by destruct (last (d :: s')) as [e|]; [destruct (e =? slash)%N|].
Qed.

Lemma computeDefaultApiBase_no_slash loc :
  ends_with_slash (computeDefaultApiBase loc) = false.
Proof.
  unfold computeDefaultApiBase. cbv zeta.
  destruct (_ || _); [reflexivity|].
  unfold ends_with_slash. rewrite last_app. reflexivity.
Qed.

(** C6 as the code has it: the configured value is trimmed of white
    space first.  When nothing is left (unset, empty or blank value)
    [API_BASE] becomes the default: 'http://localhost:8000/api' on
    localhost and 127.0.0.1, the page's origin followed by '/api'
    elsewhere; the default never ends in '/'.  Otherwise [API_BASE]
    becomes the trimmed value without its final '/', if it has one: a
    single slash is removed, so the result ends in '/' exactly when the
    trimmed value ended in '//'. *)
Theorem setApiBase_resolves loc url w :
  let value := trim (default [] url) in
  let base := API_BASE (snd (setApiBase loc url w)) in
  fst (setApiBase loc url w) = Normal tt /\
  (value = [] ->
     base = (if bool_decide (hostname loc = lit "localhost")
                || bool_decide (hostname loc = lit "127.0.0.1")
             then lit "http://localhost:8000/api"
             else origin loc ++ lit "/api") /\
     ends_with_slash base = false) /\
  (value <> [] ->
     base = (if ends_with_slash value then removelast value else value) /\
     ends_with_slash base = ends_with_slash value && ends_with_slash (removelast value)).
Proof.
  cbv zeta. unfold setApiBase.
  destruct (trim (default [] url)) as [|c v] eqn:Hv; cbn [fst snd modify API_BASE set_API_BASE].
  - split; [done|]. split; [|done]. intros _.
    split; [reflexivity|apply computeDefaultApiBase_no_slash].
  - split; [done|]. split; [done|]. intros _.
    rewrite replace_trailing_slash_spec. split; [reflexivity|].
    destruct (ends_with_slash (c :: v)) eqn:He; [reflexivity|exact He].
Qed.

(** C6 as stated fails: a configured value that ends in two slashes is
    stored with one of them left, and a blank value, although not empty,
    resolves to the default. *)
Lemma setApiBase_keeps_a_slash :
  API_BASE (snd (setApiBase (Location (lit "app.example.com") (lit "https://app.example.com"))
                            (Some (lit "https://api.example.com//")) (loaded (lit "en"))))
  = lit "https://api.example.com/"
  /\ ends_with_slash
       (API_BASE (snd (setApiBase (Location (lit "app.example.com") (lit "https://app.example.com"))
                                  (Some (lit "https://api.example.com//")) (loaded (lit "en")))))
     = true
  /\ API_BASE (snd (setApiBase (Location (lit "app.example.com") (lit "https://app.example.com"))
                               (Some (lit "  ")) (loaded (lit "en"))))
     = lit "https://app.example.com/api".
Proof. repeat split; vm_compute; reflexivity. Qed.

(** ** One interval at a time *)

Lemma inv_intervals_shape w :
  inv w ->
  intervals w = ∅ \/
  exists id c, pollingTimer w = Some id /\ intervals w = {[ id := c ]}.
Proof.
  intros Hi. destruct (pollingTimer w) as [id|] eqn:Hh.
  - destruct (intervals w !! id) as [c|] eqn:E.
    + right. exists id, c. split; [done|]. apply map_eq. intros j.
      destruct (decide (j = id)) as [->|Hne].
      * by rewrite lookup_singleton_eq.
      * rewrite lookup_singleton_ne by done.
        destruct (intervals w !! j) as [c'|] eqn:E'; [|done].
        apply (inv_active _ Hi) in E' as [E' _]. congruence.
    + left. rewrite <- (inv_delete_handle w id Hi Hh). symmetry. by apply delete_id.
  - left. by apply inv_no_handle.
Qed.

Lemma startJobPolling_intervals jobId jobType now w :
  inv w ->
  intervals (snd (startJobPolling jobId jobType now w)) =
  {[ next_interval w := Closure (next_interval w) jobId now ]}.
Proof.
  intros Hi.
  destruct (startJobPolling_frame jobId jobType now w) as (_ & _ & _ & _ & Hiv & _).
  cbv zeta in Hiv. rewrite Hiv, (inv_after_clear _ Hi). reflexivity.
Qed.

Lemma clear_previous_polling_cases me w :
  clear_previous_polling me w =
  (Normal tt, set_intervals (after_clear w) (next_interval w)
                (set_log (log w ++ clear_log me w) w)).
Proof.
  unfold after_clear, clear_log. unfold_handlers. unfold handle_truthy.
  destruct w as [ps b l h j iv n fl r sb lg]. cbn.
  destruct h as [[|id]|]; cbn; rewrite ?app_nil_r; reflexivity.
Qed.

(** C2: in every state the page can reach at most one interval is
    active, and it is the one in [state.pollingTimer].  Calling
    [startJobPolling] leaves exactly the new interval active, so a second
    call cancels the interval of the first (its [clearInterval] is the
    first thing the second call does) before registering its own.  The
    guard that cancels is safe with nothing running: on a null handle it
    changes nothing, and applying it twice is the same as once. *)
Theorem single_polling_timer w :
  reachable w ->
  (size (intervals w) <= 1)%nat /\
  (forall id, is_Some (intervals w !! id) -> pollingTimer w = Some id) /\
  (forall jobId jobType now,
     let w1 := snd (startJobPolling jobId jobType now w) in
     intervals w1 = {[ next_interval w := Closure (next_interval w) jobId now ]} /\
     pollingTimer w1 = Some (next_interval w) /\
     forall jobId' jobType' now',
       let w2 := snd (startJobPolling jobId' jobType' now' w1) in
       intervals w2 = {[ S (next_interval w) := Closure (S (next_interval w)) jobId' now' ]} /\
       intervals w2 !! next_interval w = None /\
       pollingTimer w2 = Some (S (next_interval w)) /\
       exists rest,
         log w2 = log w1 ++
                  (Poller (S (next_interval w)), ClearInterval (next_interval w)) :: rest) /\
  (forall me,
     let wc := snd (clear_previous_polling me w) in
     fst (clear_previous_polling me w) = Normal tt /\
     intervals wc = ∅ /\
     intervals (snd (clear_previous_polling me wc)) = ∅ /\
     (pollingTimer w = None -> wc = w)).
Proof.
  intros Hr. apply reachable_inv in Hr as Hi. split; [|split; [|split]].
  - destruct (inv_intervals_shape w Hi) as [->|(id & c & _ & ->)].
    + rewrite map_size_empty. lia.
    + rewrite map_size_singleton. lia.
  - intros id [c E]. by apply (inv_active _ Hi) in E as [E _].
  - intros jobId jobType now. cbv zeta.
    pose proof (startJobPolling_inv jobId jobType now w Hi) as Hi1.
    destruct (startJobPolling_frame jobId jobType now w)
      as (_ & Hh1 & _ & Hn1 & _). cbv zeta in Hh1, Hn1.
    split; [by apply startJobPolling_intervals|]. split; [exact Hh1|].
    intros jobId' jobType' now'.
    destruct (startJobPolling_frame jobId' jobType' now'
                (snd (startJobPolling jobId jobType now w)))
      as (_ & Hh2 & _ & _ & _ & _ & _ & _ & Hl2). cbv zeta in Hh2, Hl2.
    rewrite (startJobPolling_intervals _ _ _ _ Hi1), Hh2, Hl2, Hn1.
    split; [reflexivity|]. split; [|split; [reflexivity|]].
    + apply lookup_singleton_ne. lia.
    + unfold clear_log. rewrite Hh1.
      pose proof (inv_next _ Hi).
      destruct (Nat.eqb_spec (next_interval w) 0); [lia|].
      eexists. reflexivity.
  - intros me. cbv zeta. rewrite clear_previous_polling_cases. cbn [fst snd].
    split; [reflexivity|].
    rewrite clear_previous_polling_cases. cbn [fst snd].
    assert (Hc : after_clear w = ∅) by by apply inv_after_clear.
    split; [exact Hc|]. split.
    + rewrite Hc. unfold after_clear. cbn.
      destruct (pollingTimer w) as [id|]; [|reflexivity].
      destruct (Nat.eqb id 0); [reflexivity|apply delete_empty].
    + intros Hn. unfold after_clear, clear_log. rewrite Hn, app_nil_r.
      by destruct w.
Qed.

Lemma single_polling_timer_witness :
  (size (intervals polling_world) <= 1)%nat
  /\ intervals (snd (startJobPolling (JStr (lit "job-2")) (JStr (lit "video")) 9000
                                     polling_world)) !! 1%nat = None.
Proof.
  assert (Hr : reachable polling_world)
    by (exists sample_parser, (lit "en"), polling_events; vm_compute; reflexivity).
  destruct (single_polling_timer polling_world Hr)
    as (Hsz & _ & Hstart & _).
  split; [exact Hsz|].
  destruct (Hstart (JStr (lit "job-2")) (JStr (lit "video")) 9000) as (Hiv & _).
  rewrite Hiv. vm_compute. reflexivity.
Defined.

(** ** Cancelling *)

Lemma polling_world_active :
  intervals polling_world !! 1%nat = Some (Closure 1 (JStr (lit "job-1")) 1000).
Proof. vm_compute. reflexivity. Qed.

Lemma loaded_reachable lang : reachable (loaded lang).
Proof. by exists sample_parser, lang, []. Qed.

(** ** Counting deliveries and pending fetches *)













(** ** Terminal responses *)




(** ** Elapsed time *)

Lemma round_seconds_mono a b : a <= b -> round_seconds a <= round_seconds b.
Proof. intros H. unfold round_seconds. apply Z.div_le_mono; lia. Qed.

Lemma elapsed_shown_app s l1 l2 :
  elapsed_shown s (l1 ++ l2) = elapsed_shown s l1 ++ elapsed_shown s l2.
Proof.
  induction l1 as [|[[s'|] e] l1 IH]; cbn; [done| |done].
  destruct e; try done. destruct (Nat.eqb s' s); cbn; by rewrite IH.
Qed.

Lemma elapsed_silent s l :
  Forall (fun x => shows_elapsed x = false) l -> elapsed_shown s l = [].
Proof.
  induction 1 as [|[[s'|] e] l Hx _ IH]; cbn; [done| |done].
  by destruct e.
Qed.

Lemma elapsed_terminal_effects s me w job :
  elapsed_shown s (terminal_effects me w job) = [].
Proof.
  apply elapsed_silent. unfold terminal_effects, cancel_effects. cbv zeta.
  destruct (strict_eq_lit (status job) "completed");
    [|destruct (strict_eq_lit (status job) "failed");
      [destruct (toast_builds w _)|]];
    destruct (pollingTimer w), me; repeat constructor.
Qed.

Lemma log_after_assignment (b : bool) job w :
  log (if b then set_currentJob (Some job) w else w) = log w.
Proof. by destruct b. Qed.

Lemma elapsed_clear_log s me w : elapsed_shown s (clear_log me w) = [].
Proof.
  apply elapsed_silent. unfold clear_log.
  destruct (pollingTimer w) as [id|]; [|constructor].
  destruct (Nat.eqb id 0), me; repeat constructor.
Qed.

(** A settled poll shows the elapsed time once when it receives a
    record, and not otherwise. *)
Lemma poll_resume_elapsed s c r now w :
  elapsed_shown s (log (snd (poll_resume c r now w))) =
  elapsed_shown s (log w) ++
  match accepted r with
  | Some _ => if Nat.eqb (c_session c) s
              then [round_seconds (now - c_startTime c)] else []
  | None => []
  end.
Proof.
  destruct (accepted r) as [job|] eqn:Ha.
  - destruct r as [|[|] [m| |job']]; try discriminate.
    rewrite poll_resume_success. cbv zeta. unfold snd.
    rewrite log_after_assignment. world_fields.
    rewrite !elapsed_shown_app, elapsed_terminal_effects, app_nil_r.
    unfold progress_effects. cbn. by destruct (Nat.eqb (c_session c) s).
  - destruct (poll_resume_failure c r now w Ha) as [e ->]. world_fields.
    rewrite elapsed_shown_app. cbn. by rewrite app_nil_r.
Qed.

Lemma StronglySorted_snoc l (e : Z) :
  StronglySorted Z.le l -> Forall (fun x => x <= e) l -> StronglySorted Z.le (l ++ [e]).
Proof.
  induction 1 as [|x l Hl IH Hx]; intros Hall; cbn.
  - repeat constructor.
  - apply Forall_cons in Hall as [Hxe Hall]. constructor; [by apply IH|].
    apply Forall_app. split; [done|]. by constructor.
Qed.

Lemma session_ok_later s start last last' w :
  session_ok s start last w -> last <= last' -> session_ok s start last' w.
Proof.
  intros [] Hle. constructor; try done; [lia|].
  eapply Forall_impl; [eassumption|]. intros e He. cbn in He.
  pose proof (round_seconds_mono (last - start) (last' - start)). lia.
Qed.

Lemma round_seconds_nonneg x : 0 <= x -> 0 <= round_seconds x.
Proof. intros H. unfold round_seconds. apply Z.div_pos; lia. Qed.

Lemma session_ok_extend s start last w w' extra :
  session_ok s start last w ->
  inv w' ->
  (next_interval w <= next_interval w')%nat ->
  (forall id c, intervals w' !! id = Some c ->
     intervals w !! id = Some c \/ c_session c <> s) ->
  (forall req c, inflight w' !! req = Some c ->
     inflight w !! req = Some c \/ (exists id, intervals w !! id = Some c) \/
     c_session c <> s) ->
  elapsed_shown s (log w') = elapsed_shown s (log w) ++ extra ->
  extra = [] \/ extra = [round_seconds (last - start)] ->
  session_ok s start last w'.
Proof.
  intros [] Hi' Hn Hiv Hfl Hl Hex. constructor; try done.
  - lia.
  - intros id c E Hs. apply Hiv in E as [E|E]; [eauto|done].
  - intros req c E Hs. apply Hfl in E as [E|[[id E]|E]]; [eauto|eauto|done].
  - rewrite Hl. destruct Hex as [->| ->]; [by rewrite app_nil_r|].
    apply StronglySorted_snoc; [done|].
    eapply Forall_impl; [eassumption|]. intros e He. cbn in He. lia.
  - rewrite Hl. destruct Hex as [->| ->]; [by rewrite app_nil_r|].
    apply Forall_app. split; [done|]. constructor; [|constructor].
    split; [|lia]. apply round_seconds_nonneg. lia.
Qed.

Lemma elapsed_page s l :
  Forall (fun x => fst x = Page) l -> elapsed_shown s l = [].
Proof.
  intros Hall. apply elapsed_silent.
  eapply Forall_impl; [exact Hall|]. intros [a e] Ha. cbn in Ha. by subst a.
Qed.

Lemma session_ok_set_log s start last w l :
  session_ok s start last w ->
  Forall (fun x => fst x = Page) l ->
  session_ok s start last (set_log (log w ++ l) w).
Proof.
  intros Hok Hl. apply (session_ok_extend s start last w _ [] Hok); world_fields.
  - apply inv_set_log; [apply Hok|]. by apply page_effects_below.
  - lia.
  - eauto.
  - eauto.
  - by rewrite elapsed_shown_app, (elapsed_page s l).
  - by left.
Qed.

Lemma session_ok_set_submitting s start last w m :
  session_ok s start last w -> session_ok s start last (set_submitting m w).
Proof.
  intros Hok. apply (session_ok_extend s start last w _ [] Hok); world_fields.
  - apply inv_set_submitting, Hok.
  - lia.
  - eauto.
  - eauto.
  - by rewrite app_nil_r.
  - by left.
Qed.

Lemma startJobPolling_session_ok s start last jobId jobType now w :
  session_ok s start last w ->
  session_ok s start last (snd (startJobPolling jobId jobType now w)).
Proof.
  intros Hok. pose proof (so_inv _ _ _ _ Hok) as Hi.
  pose proof (so_known _ _ _ _ Hok) as Hlt.
  destruct (startJobPolling_frame jobId jobType now w)
    as (_ & _ & _ & Hn & _ & Hfl & _ & _ & Hl). cbv zeta in Hn, Hfl, Hl.
  apply (session_ok_extend s start last w _ [] Hok).
  - by apply startJobPolling_inv.
  - rewrite Hn. lia.
  - intros id c. rewrite (startJobPolling_intervals _ _ _ _ Hi). intros E.
    apply lookup_singleton_Some in E as [_ <-]. right. cbn. lia.
  - intros req c. rewrite Hfl. intros E.
    apply lookup_insert_Some in E as [[_ <-]|[_ E]]; [|by left].
    right. right. cbn. lia.
  - rewrite Hl, !elapsed_shown_app, elapsed_clear_log.
    rewrite (elapsed_silent s [_; _; _]) by repeat constructor.
    by rewrite !app_nil_r.
  - by left.
Qed.

Lemma step_session_ok s start last e w w' :
  session_ok s start last w ->
  last <= reading e last ->
  step e w = Some w' ->
  session_ok s start (reading e last) w'.
Proof.
  intros Hok Hle Hs. apply (session_ok_later _ _ _ _ _ Hok) in Hle as Hok'.
  clear Hok. pose proof (so_inv _ _ _ _ Hok') as Hi.
  pose proof (step_inv _ _ _ Hi Hs) as Hi'.
  destruct e as [loc url|k f|req r now|id|req r now]; unfold step in Hs; cbn [reading] in *.
  - destruct (setApiBase_frame loc url w) as [b Hb]. rewrite Hb in Hs.
    cbn [snd] in Hs. assert (w' = set_API_BASE b w) as -> by congruence.
    apply (session_ok_extend s start last w _ [] Hok' Hi'); world_fields.
    + lia.
    + eauto.
    + eauto.
    + by rewrite app_nil_r.
    + by left.
  - assert (w' = snd (submit k f w)) as -> by congruence.
    destruct (submit_cases k f w) as [[key Hk]|Hk]; rewrite Hk in *.
    + apply session_ok_set_log; [done|]. repeat constructor.
    + apply (session_ok_extend s start last w _ [] Hok' Hi'); world_fields.
      * lia.
      * eauto.
      * eauto.
      * by rewrite elapsed_shown_app, (elapsed_page s (_ :: _)) by repeat constructor.
      * by left.
  - destruct (submitting w !! req) as [k|]; [|done].
    assert (w' = snd (submit_resume k r now (set_submitting (delete req (submitting w)) w)))
      as -> by congruence.
    rewrite submit_resume_cases.
    pose proof (session_ok_set_submitting _ _ _ _ (delete req (submitting w)) Hok') as Hok1.
    destruct (accepted r) as [data|]; cbv zeta; unfold snd at 1.
    + apply session_ok_set_log; [|repeat constructor].
      apply startJobPolling_session_ok.
      apply session_ok_set_log; [exact Hok1|repeat constructor].
    + apply session_ok_set_log; [exact Hok1|apply rejected_effects_page].
  - destruct (intervals w !! id) as [c|] eqn:E; [|done].
    assert (w' = snd (poll_issue c w)) as -> by congruence.
    destruct (poll_issue_frame c w) as (_ & Hn & Hiv & _ & _ & _ & Hfl & _ & Hl).
    cbv zeta in Hn, Hiv, Hfl, Hl.
    apply (session_ok_extend s start last w _ [] Hok' Hi').
    + rewrite Hn. lia.
    + intros id' c'. rewrite Hiv. by left.
    + intros req c'. rewrite Hfl. intros E'.
      apply lookup_insert_Some in E' as [[_ <-]|[_ E']]; [|by left].
      right. left. by exists id.
    + rewrite Hl, elapsed_shown_app, (elapsed_silent s [_]) by repeat constructor.
      done.
    + by left.
  - destruct (inflight w !! req) as [c|] eqn:E; [|done].
    set (w0 := set_inflight (delete req (inflight w)) w) in *.
    assert (w' = snd (poll_resume c r now w0)) as -> by congruence.
    destruct (poll_resume_frame c r now w0) as (Hn & Hfl & _ & _ & _ & Hiv & _).
    cbv zeta in Hn, Hfl, Hiv.
    pose proof (poll_resume_elapsed s c r now w0) as Hel.
    eapply (session_ok_extend s start now w _ _ Hok' Hi').
    + rewrite Hn. subst w0. world_fields. lia.
    + intros id c'. subst w0. world_fields.
      destruct Hiv as [->|(h & _ & ->)]; [by left|].
      intros E'. apply lookup_delete_Some in E' as [_ E']. by left.
    + intros req' c'. rewrite Hfl. subst w0. world_fields. intros E'.
      apply lookup_delete_Some in E' as [_ E']. by left.
    + subst w0. world_fields. exact Hel.
    + destruct (accepted r); [|by left].
      destruct (Nat.eqb_spec (c_session c) s) as [Hs'|]; [|by left].
      right. by rewrite (so_pending _ _ _ _ Hok' _ _ E Hs').
Qed.

Lemma clock_readings_cons e evs last :
  StronglySorted Z.le (last :: clock_readings (e :: evs)) ->
  last <= reading e last /\
  StronglySorted Z.le (reading e last :: clock_readings evs).
Proof.
  intros Hs. destruct e; cbn in *; try (split; [lia|done]);
    apply StronglySorted_inv in Hs as [Hs Hall];
    apply Forall_cons in Hall as [Hle _]; done.
Qed.

Lemma run_session_ok s start evs : forall last w w',
  session_ok s start last w ->
  StronglySorted Z.le (last :: clock_readings evs) ->
  run evs w = Some w' ->
  exists last', session_ok s start last' w'.
Proof.
  induction evs as [|e evs IH]; intros last w w' Hok Hs Hr; cbn [run] in Hr.
  - injection Hr as <-. by exists last.
  - destruct (step e w) as [w1|] eqn:Hstep; [|done].
    apply clock_readings_cons in Hs as [Hle Hs].
    eapply IH; [|exact Hs|exact Hr].
    by eapply step_session_ok.
Qed.

Lemma elapsed_unknown_session n l :
  Forall (tagged_below n) l -> elapsed_shown n l = [].
Proof.
  induction 1 as [|[[s|] e] l Hx _ IH]; cbn; [done| |done].
  destruct e; try done. unfold tagged_below in Hx. cbn in Hx.
  destruct (Nat.eqb_spec s n); [lia|done].
Qed.

Lemma startJobPolling_session_start jobId jobType now w :
  inv w ->
  session_ok (next_interval w) now now (snd (startJobPolling jobId jobType now w)).
Proof.
  intros Hi.
  destruct (startJobPolling_frame jobId jobType now w)
    as (_ & _ & _ & Hn & _ & Hfl & _ & _ & Hl). cbv zeta in Hn, Hfl, Hl.
  assert (Hel : elapsed_shown (next_interval w)
                  (log (snd (startJobPolling jobId jobType now w))) = []).
  { rewrite Hl, !elapsed_shown_app, elapsed_clear_log.
    rewrite (elapsed_unknown_session _ (log w)) by by apply inv_log_Forall.
    by rewrite (elapsed_silent _ [_; _; _]) by repeat constructor. }
  constructor.
  - by apply startJobPolling_inv.
  - rewrite Hn. lia.
  - lia.
  - intros id c. rewrite (startJobPolling_intervals _ _ _ _ Hi). intros E _.
    by apply lookup_singleton_Some in E as [_ <-].
  - intros req c. rewrite Hfl. intros E Hs.
    apply lookup_insert_Some in E as [[_ <-]|[_ E]]; [done|].
    apply (inv_inflight _ Hi) in E. lia.
  - rewrite Hel. constructor.
  - rewrite Hel. constructor.
Qed.

Lemma startJobPolling_no_elapsed jobId jobType now w :
  inv w ->
  elapsed_shown (next_interval w) (log (snd (startJobPolling jobId jobType now w))) = [].
Proof.
  intros Hi.
  destruct (startJobPolling_frame jobId jobType now w)
    as (_ & _ & _ & _ & _ & _ & _ & _ & Hl). cbv zeta in Hl.
  rewrite Hl, !elapsed_shown_app, elapsed_clear_log.
  rewrite (elapsed_unknown_session _ (log w)) by by apply inv_log_Forall.
  by rewrite (elapsed_silent _ [_; _; _]) by repeat constructor.
Qed.

(** What one event adds to the elapsed times displayed for a session:
    the rounded time since the start, for a successful poll of the
    session, and nothing otherwise. *)
Lemma step_elapsed s start last e w w' :
  session_ok s start last w ->
  step e w = Some w' ->
  elapsed_shown s (log w') =
  elapsed_shown s (log w) ++
  map (fun now => round_seconds (now - start)) (poll_reading s e w).
Proof.
  intros Hok Hs. pose proof (so_inv _ _ _ _ Hok) as Hi.
  destruct e as [loc url|k f|req r now|id|req r now]; unfold step in Hs;
    cbn [poll_reading map].
  - destruct (setApiBase_frame loc url w) as [b Hb]. rewrite Hb in Hs.
    cbn [snd] in Hs. assert (w' = set_API_BASE b w) as -> by congruence.
    world_fields. by rewrite app_nil_r.
  - assert (w' = snd (submit k f w)) as -> by congruence.
    destruct (submit_cases k f w) as [[key ->]| ->]; world_fields;
      by rewrite elapsed_shown_app, (elapsed_page s (_ :: _)) by repeat constructor.
  - destruct (submitting w !! req) as [k|]; [|done].
    assert (w' = snd (submit_resume k r now (set_submitting (delete req (submitting w)) w)))
      as -> by congruence.
    rewrite submit_resume_cases.
    destruct (accepted r) as [data|]; cbv zeta; unfold snd at 1.
    + set (w1 := set_log _ (set_submitting _ w)).
      destruct (startJobPolling_frame (job_id data) (JStr (lit (kind_name k))) now w1)
        as (_ & _ & _ & _ & _ & _ & _ & _ & Hl). cbv zeta in Hl.
      world_fields. rewrite Hl, !elapsed_shown_app, elapsed_clear_log.
      rewrite (elapsed_silent s [_; _; _]) by repeat constructor.
      rewrite (elapsed_page s [_]) by repeat constructor.
      subst w1. world_fields.
      rewrite elapsed_shown_app, (elapsed_page s [_]) by repeat constructor.
      by rewrite !app_nil_r.
    + world_fields.
      by rewrite elapsed_shown_app, (elapsed_page s (rejected_effects _ _ _))
        by apply rejected_effects_page.
  - destruct (intervals w !! id) as [c|] eqn:E; [|done].
    assert (w' = snd (poll_issue c w)) as -> by congruence.
    destruct (poll_issue_frame c w) as (_ & _ & _ & _ & _ & _ & _ & _ & Hl).
    cbv zeta in Hl.
    by rewrite Hl, elapsed_shown_app, (elapsed_silent s [_]) by repeat constructor.
  - destruct (inflight w !! req) as [c|] eqn:E; [|done].
    assert (w' = snd (poll_resume c r now (set_inflight (delete req (inflight w)) w)))
      as -> by congruence.
    rewrite poll_resume_elapsed. world_fields. f_equal.
    destruct (accepted r); [|done].
    destruct (Nat.eqb_spec (c_session c) s) as [Hs'|]; [|done].
    cbn [map]. by rewrite (so_pending _ _ _ _ Hok _ _ E Hs').
Qed.

Lemma run_session_elapsed s start evs : forall last w w',
  session_ok s start last w ->
  StronglySorted Z.le (last :: clock_readings evs) ->
  run evs w = Some w' ->
  elapsed_shown s (log w') =
  elapsed_shown s (log w) ++
  map (fun now => round_seconds (now - start)) (session_polls s evs w).
Proof.
  induction evs as [|e evs IH]; intros last w w' Hok Hs Hr;
    cbn [run session_polls] in *.
  - injection Hr as <-. by rewrite app_nil_r.
  - destruct (step e w) as [w1|] eqn:Hstep; [|done].
    apply clock_readings_cons in Hs as [Hle Hs].
    rewrite (IH _ _ _ (step_session_ok _ _ _ _ _ _ Hok Hle Hstep) Hs Hr).
    rewrite (step_elapsed _ _ _ _ _ _ Hok Hstep).
    by rewrite map_app, app_assoc.
Qed.

Lemma round_seconds_nearest x :
  1000 * round_seconds x - 500 <= x < 1000 * round_seconds x + 500.
Proof.
  unfold round_seconds.
  pose proof (Z.div_mod (x + 500) 1000 ltac:(lia)).
  pose proof (Z.mod_pos_bound (x + 500) 1000 ltac:(lia)). lia.
Qed.

(** C7: a session starts when an accepted submission calls
    [startJobPolling], which takes the clock reading [now] of that moment
    as the baseline.  From then on, whatever happens on the page, every
    poll of the session that receives a record displays an elapsed time,
    one for each such poll and in their order, and the time displayed is
    the number of whole seconds nearest to the time since the baseline.
    Provided the clock readings from the start on do not decrease, the
    times displayed are non-decreasing in the order in which they are
    displayed, and never negative. *)
Theorem elapsed_monotone w req data now w1 evs w' :
  reachable w ->
  step (SubmitSettled req (HttpResponse true (BodyObject data)) now) w = Some w1 ->
  StronglySorted Z.le (now :: clock_readings evs) ->
  run evs w1 = Some w' ->
  let session := next_interval w in
  let shown := elapsed_shown session (log w') in
  Forall2 (fun e t => 1000 * e - 500 <= t - now < 1000 * e + 500)
          shown (session_polls session evs w1) /\
  StronglySorted Z.le shown /\
  Forall (fun e => 0 <= e) shown.
Proof.
  intros Hr Hstep Hs Hrun. cbv zeta. apply reachable_inv in Hr as Hi.
  unfold step in Hstep. destruct (submitting w !! req) as [k|]; [|done].
  assert (w1 = snd (submit_resume k (HttpResponse true (BodyObject data)) now
                      (set_submitting (delete req (submitting w)) w)))
    as -> by congruence. clear Hstep.
  rewrite submit_resume_cases in Hrun |- *. cbn [accepted] in Hrun |- *.
  cbv zeta in Hrun |- *. unfold snd at 1 in Hrun. unfold snd at 1.
  set (w0 := set_log _ (set_submitting _ w)) in *.
  assert (Hi0 : inv w0).
  { apply inv_set_log; [by apply inv_set_submitting|].
    apply page_effects_below. repeat constructor. }
  change (next_interval w) with (next_interval w0).
  set (w2 := snd (startJobPolling (job_id data) (JStr (lit (kind_name k))) now w0)) in *.
  assert (Hok : session_ok (next_interval w0) now now
                  (set_log (log w2 ++ [(Page, SetButtonLoading k false)]) w2)).
  { apply session_ok_set_log; [|repeat constructor].
    by apply startJobPolling_session_start. }
  assert (Hnone : elapsed_shown (next_interval w0)
                    (log (set_log (log w2 ++ [(Page, SetButtonLoading k false)]) w2)) = []).
  { world_fields. rewrite elapsed_shown_app.
    subst w2. rewrite startJobPolling_no_elapsed by done. reflexivity. }
  rewrite (run_session_elapsed _ _ _ _ _ _ Hok Hs Hrun), Hnone. cbn [app].
  split; [|split].
  - induction (session_polls _ _ _) as [|x l IH]; cbn [map]; constructor; [|exact IH].
    apply round_seconds_nearest.
  - destruct (run_session_ok _ _ _ _ _ _ Hok Hs Hrun) as [last' Hok'].
    pose proof (so_sorted _ _ _ _ Hok') as Hsorted.
    by rewrite (run_session_elapsed _ _ _ _ _ _ Hok Hs Hrun), Hnone in Hsorted.
  - destruct (run_session_ok _ _ _ _ _ _ Hok Hs Hrun) as [last' Hok'].
    pose proof (so_bound _ _ _ _ Hok') as Hbound.
    rewrite (run_session_elapsed _ _ _ _ _ _ Hok Hs Hrun), Hnone in Hbound.
    eapply Forall_impl; [exact Hbound|]. intros e He. cbn in He. lia.
Qed.

Example four_polls_elapsed :
  elapsed_shown 1 (log four_polls_world) = [0; 3; 7] /\
  session_polls 1 four_polls polling_world = [1400; 3600; 7700].
Proof. split; vm_compute; reflexivity. Qed.

Lemma elapsed_monotone_witness :
  Forall2 (fun e t => 1000 * e - 500 <= t - 1000 < 1000 * e + 500)
          (elapsed_shown (next_interval submitted_world) (log four_polls_world))
          (session_polls (next_interval submitted_world) four_polls polling_world) /\
  StronglySorted Z.le
    (elapsed_shown (next_interval submitted_world) (log four_polls_world)).
Proof.
  assert (Hr : reachable submitted_world)
    by (exists sample_parser, (lit "en"), [Submit Face no_files]; vm_compute; reflexivity).
  assert (Hstep : step (SubmitSettled 0 (submission_accepted "job-1") 1000) submitted_world
                  = Some polling_world)
    by (vm_compute; reflexivity).
  assert (Hclock : StronglySorted Z.le (1000 :: clock_readings four_polls))
    by (cbn [clock_readings four_polls]; repeat constructor; lia).
  assert (Hrun : run four_polls polling_world = Some four_polls_world)
    by (vm_compute; reflexivity).
  destruct (elapsed_monotone submitted_world 0 _ 1000 polling_world four_polls
              four_polls_world Hr Hstep Hclock Hrun) as (Hnear & Hsorted & _).
  split; [exact Hnear|exact Hsorted].
Defined.

(** ** The scenarios of the specification *)

Example scenario_completed :
  option_map (fun w => (currentJob w, size (intervals w), terminal_deliveries 1 (log w),
                        elapsed_shown 1 (log w), step (Tick 1) w))
             (run completes_at_second_tick (loaded (lit "en")))
  = Some (Some completed_job, 0%nat, 1%nat, [0; 2], None).
Proof. vm_compute. reflexivity. Qed.

Example scenario_failed :
  option_map (fun w => (currentJob w, size (intervals w), terminal_deliveries 1 (log w),
                        console_errors (log w), step (Tick 1) w))
             (run fails_after_three_errors (loaded (lit "en")))
  = Some (Some failed_job, 0%nat, 1%nat, 3%nat, None).
Proof. vm_compute. reflexivity. Qed.

(** * Further properties of the code *)

(** ** Validation before a submission *)

Lemma trimStart_head s c s' : trimStart s = c :: s' -> is_js_space c = false.
Proof.
  induction s as [|d s IH]; cbn; [done|].
  destruct (is_js_space d) eqn:Hd; [exact IH|]. by intros [= <- _].
Qed.

Lemma trimStart_nil s : trimStart s = [] <-> forallb is_js_space s = true.
Proof.
  induction s as [|d s IH]; cbn; [done|].
  destruct (is_js_space d); cbn; [exact IH|]. split; discriminate.
Qed.

(** [trim] leaves nothing exactly when the string is blank. *)
Lemma trim_nil s : trim s = [] <-> forallb is_js_space s = true.
Proof.
  rewrite <- trimStart_nil. unfold trim, trimEnd. split.
  - intros H. destruct (trimStart s) as [|c s'] eqn:E; [done|].
    apply (f_equal (@rev N)) in H. rewrite rev_involutive in H. cbn [rev] in H.
    apply trimStart_nil in H. rewrite forallb_app in H.
    apply andb_true_iff in H as [_ H]. cbn in H.
    apply trimStart_head in E. rewrite E in H. discriminate.
  - intros ->. reflexivity.
Qed.

(** X1: [submitVideoGeneration] sends nothing unless both the start
    image and the driving video are uploaded: with either missing it only
    shows one error toast, naming the start image first, and neither the
    loading state nor a request is started; with both present it sets the
    button loading and posts to [API_BASE + '/video/generate']. *)
Theorem video_submission_needs_both_files f w :
  (uploaded_video f && uploaded_videoMotion f = false ->
   submitVideoGeneration f w =
   (Normal tt,
    set_log (log w ++
      [(Page, ShowToast
                (Text (t (language w)
                         (if uploaded_video f then "drivingVideo" else "startImage")%string
                       ++ lit " " ++ t (language w) "required"))
                ToastError)]) w)) /\
  (uploaded_video f && uploaded_videoMotion f = true ->
   submitVideoGeneration f w =
   (Normal tt,
    set_next_request (S (next_request w))
      (set_submitting (<[next_request w := Video]> (submitting w))
         (set_log (log w ++
            [(Page, SetButtonLoading Video true);
             (Page, Fetch "POST" (API_BASE w ++ lit "/video/generate"))]) w)))).
Proof.
  unfold submitVideoGeneration.
  destruct (uploaded_video f), (uploaded_videoMotion f); cbn [andb negb];
    (split; [intros H|intros H]); try discriminate H;
    rewrite ?required_toast_run by (cbn; tauto); try reflexivity;
    unfold_handlers; cbn; rewrite <- ?app_assoc; reflexivity.
Qed.

(** X2: [submitLipsyncGeneration] sends nothing without a source video,
    and nothing when the speech text is empty or consists of white space
    only; in both cases it only shows one error toast.  With a video and
    a text that has a visible character it posts to
    [API_BASE + '/lipsync/generate']. *)
Theorem lipsync_submission_needs_video_and_text f w :
  (uploaded_lipsync f = false ->
   submitLipsyncGeneration f w =
   (Normal tt,
    set_log (log w ++
      [(Page, ShowToast (Text (t (language w) "sourceVideo" ++ lit " " ++
                               t (language w) "required")) ToastError)]) w)) /\
  (uploaded_lipsync f = true ->
   forallb is_js_space (lipsync_text f) = true ->
   submitLipsyncGeneration f w =
   (Normal tt,
    set_log (log w ++
      [(Page, ShowToast (Text (t (language w) "speechText" ++ lit " " ++
                               t (language w) "required")) ToastError)]) w)) /\
  (uploaded_lipsync f = true ->
   forallb is_js_space (lipsync_text f) = false ->
   submitLipsyncGeneration f w =
   (Normal tt,
    set_next_request (S (next_request w))
      (set_submitting (<[next_request w := Lipsync]> (submitting w))
         (set_log (log w ++
            [(Page, SetButtonLoading Lipsync true);
             (Page, Fetch "POST" (API_BASE w ++ lit "/lipsync/generate"))]) w)))).
Proof.
  unfold submitLipsyncGeneration. split; [|split].
  - intros ->. cbn [negb]. by rewrite required_toast_run by (cbn; tauto).
  - intros -> Hb. apply trim_nil in Hb. rewrite Hb. cbn [negb].
    by rewrite required_toast_run by (cbn; tauto).
  - intros -> Hb. cbn [negb].
    destruct (trim (lipsync_text f)) as [|c s] eqn:E.
    + apply trim_nil in E. congruence.
    + unfold_handlers. cbn. rewrite <- ?app_assoc. reflexivity.
Qed.

(** ** A settled submission *)

(** X3: whatever the response to a submission is (no response, any
    status, any body), the last thing the resumed submit function does is
    re-enable the button: the loading state set before the request never
    stays on.  The function completes normally when the submission is
    accepted, and also when it is not and the toast for the error can be
    built; when that toast cannot be built, what [showToast] threw inside
    the [catch] block leaves the function, after the button is reset. *)
Theorem settled_submission_resets_button k r now w :
  last (log (snd (submit_resume k r now w))) = Some (Page, SetButtonLoading k false) /\
  fst (submit_resume k r now w) =
    (if match accepted r with Some _ => true | None => false end
        || toast_builds w (submit_error r)
     then Normal tt else Throw toast_failure).
Proof.
  rewrite submit_resume_cases. destruct (accepted r) as [data|]; cbv zeta; cbn [fst snd].
  - split; [|reflexivity]. world_fields. apply last_snoc.
  - split; [|reflexivity]. world_fields. unfold rejected_effects.
    rewrite !app_assoc. apply last_snoc.
Qed.

(** X4: when a submission is answered with 2xx and an object, polling
    starts for that object's [job_id] (whatever it is, [undefined]
    included): the handle holds a fresh interval, which is the only
    active one, the current job is [{job_id, job_type}] with the type of
    the form, the first status fetch for
    [API_BASE + '/jobs/' + job_id] is issued at once and is pending, and
    the button is re-enabled last. *)
Theorem accepted_submission_starts_polling w req k data now :
  reachable w ->
  submitting w !! req = Some k ->
  let n := next_interval w in
  let poll := Closure n (job_id data) now in
  exists w',
    step (SubmitSettled req (HttpResponse true (BodyObject data)) now) w = Some w' /\
    pollingTimer w' = Some n /\
    intervals w' = {[ n := poll ]} /\
    inflight w' = <[next_request w := poll]> (inflight w) /\
    currentJob w' =
      Some (JsObject (job_id data) (JStr (lit (kind_name k))) JUndefined JUndefined
                     JUndefined JUndefined JUndefined JUndefined) /\
    In (Poller n, Fetch "GET" (API_BASE w ++ lit "/jobs/" ++ to_string (job_id data)))
       (log w') /\
    last (log w') = Some (Page, SetButtonLoading k false).
Proof.
  intros Hr E n poll. apply reachable_inv in Hr as Hi.
  eexists. split; [by apply step_SubmitSettled|].
  rewrite submit_resume_cases. cbn [accepted]. cbv zeta. cbn [snd].
  set (w1 := set_log _ (set_submitting _ w)).
  assert (Hi1 : inv w1).
  { apply inv_set_log; [by apply inv_set_submitting|].
    apply page_effects_below. repeat constructor. }
  destruct (startJobPolling_frame (job_id data) (JStr (lit (kind_name k))) now w1)
    as (_ & Hh & Hj & _ & _ & Hfl & _ & _ & Hl). cbv zeta in Hh, Hj, Hfl, Hl.
  pose proof (startJobPolling_intervals (job_id data) (JStr (lit (kind_name k))) now w1 Hi1)
    as Hiv.
  world_fields. repeat split; try assumption.
  - rewrite Hl. apply in_or_app. left. apply in_or_app. right.
    apply in_or_app. right. subst w1. world_fields. right. right. by left.
  - apply last_snoc.
Qed.

Lemma accepted_submission_starts_polling_witness :
  exists w',
    step (SubmitSettled 2 (submission_accepted "job-2") 2000) resubmitted_world = Some w'
    /\ pollingTimer w' = Some 2%nat
    /\ intervals w' = {[ 2%nat := Closure 2 (JStr (lit "job-2")) 2000 ]}.
Proof.
  assert (Hr : reachable resubmitted_world)
    by (exists sample_parser, (lit "en"), (polling_events ++ [Submit Face no_files]);
        vm_compute; reflexivity).
  assert (Hsub : submitting resubmitted_world !! 2%nat = Some Face)
    by (vm_compute; reflexivity).
  destruct (accepted_submission_starts_polling resubmitted_world 2 Face
              (JsObject (JStr (lit "job-2")) JUndefined JUndefined JUndefined
                        JUndefined JUndefined JUndefined JUndefined)
              2000 Hr Hsub)
    as (w' & Hs & Hh & Hiv & _).
  exists w'. split; [exact Hs|]. split; [exact Hh|exact Hiv].
Defined.

(** ** Sessions and the shared handle *)

(** X5: [poll] cancels whatever interval [state.pollingTimer] holds, not
    the interval of its own call of [startJobPolling].  When a status
    fetch of an earlier session receives a terminal record after a newer
    job has started polling, the newer job's interval is cancelled (no
    interval is left active).  The current job is overwritten with the
    earlier job's record when that record is a completed one, or a failed
    one whose toast can be built; when the toast of a failed record
    cannot be built the current job stays as it was. *)
Theorem stale_terminal_response_cancels_newer_session w req poll id p job now :
  reachable w ->
  inflight w !! req = Some poll ->
  pollingTimer w = Some id ->
  intervals w !! id = Some p ->
  c_session poll <> id ->
  is_terminal job = true ->
  exists w',
    step (PollSettled req (HttpResponse true (BodyObject job)) now) w = Some w' /\
    intervals w' !! id = None /\
    intervals w' = ∅ /\
    In (Poller (c_session poll), ClearInterval id) (log w') /\
    (strict_eq_lit (status job) "completed" = true \/
     toast_builds w (failure_text (language w) job) = true ->
     currentJob w' = Some job) /\
    (strict_eq_lit (status job) "completed" = false ->
     toast_builds w (failure_text (language w) job) = false ->
     currentJob w' = currentJob w).
Proof.
  intros Hr E Hh Hp Hne Ht. apply reachable_inv in Hr as Hi.
  eexists. split; [by apply step_PollSettled|].
  rewrite poll_resume_success, Ht. cbv zeta. unfold snd.
  rewrite (reaches_assignment_frame w) by reflexivity.
  rewrite (terminal_effects_frame _ w) by reflexivity.
  assert (Hra : reaches_assignment w job =
                strict_eq_lit (status job) "completed"
                || toast_builds w (failure_text (language w) job)).
  { unfold reaches_assignment. unfold is_terminal in Ht.
    destruct (strict_eq_lit (status job) "completed"); [done|].
    cbn [orb] in Ht |- *. by rewrite Ht. }
  assert (Hin : In (Poller (c_session poll), ClearInterval id)
                   (log w ++ progress_effects (Poller (c_session poll)) job
                                (round_seconds (now - c_startTime poll)) ++
                    terminal_effects (Poller (c_session poll)) w job)).
  { apply in_or_app. right. apply in_or_app. right.
    unfold terminal_effects, cancel_effects. cbv zeta. rewrite Hh.
    unfold is_terminal in Ht.
    destruct (strict_eq_lit (status job) "completed"); [by left|].
    cbn [orb] in Ht. rewrite Ht. by left. }
  destruct (reaches_assignment w job); world_fields;
    rewrite Hh; unfold cancelled; rewrite (inv_delete_handle w id Hi Hh);
    (split; [apply lookup_empty|]); (split; [reflexivity|]); (split; [exact Hin|]).
  - split; [done|]. intros Hc Hb. rewrite Hc, Hb in Hra. discriminate.
  - split; [|done]. intros [Hc|Hb]; [rewrite Hc in Hra|rewrite Hb, orb_true_r in Hra];
      discriminate.
Qed.

Lemma stale_terminal_response_cancels_newer_session_witness :
  exists w',
    step (PollSettled 1 (status_response completed_job) 2500) superseded_world = Some w'
    /\ intervals w' !! 2%nat = None
    /\ currentJob w' = Some completed_job.
Proof.
  assert (Hr : reachable superseded_world)
    by (exists sample_parser, (lit "en"), superseded_events; vm_compute; reflexivity).
  assert (Hp : inflight superseded_world !! 1%nat =
               Some (Closure 1 (JStr (lit "job-1")) 1000))
    by (vm_compute; reflexivity).
  assert (Hh : pollingTimer superseded_world = Some 2%nat)
    by (vm_compute; reflexivity).
  assert (Ha : intervals superseded_world !! 2%nat =
               Some (Closure 2 (JStr (lit "job-2")) 2000))
    by (vm_compute; reflexivity).
  assert (Hne : c_session (Closure 1 (JStr (lit "job-1")) 1000) <> 2%nat)
    by (cbn; lia).
  destruct (stale_terminal_response_cancels_newer_session superseded_world 1 _ 2 _
              completed_job 2500 Hr Hp Hh Ha Hne eq_refl)
    as (w' & Hs & Hoff & _ & _ & Hj & _).
  exists w'. split; [exact Hs|]. split; [exact Hoff|].
  apply Hj. left. vm_compute. reflexivity.
Defined.

Lemma step_keeps_interval e w w' :
  may_cancel e = false -> step e w = Some w' ->
  intervals w' = intervals w /\ pollingTimer w' = pollingTimer w.
Proof.
  intros Hc Hs. destruct e as [loc url|k f|req r now|id|req r now];
    unfold step in Hs; cbn [may_cancel] in Hc.
  - destruct (setApiBase_frame loc url w) as [b Hb]. rewrite Hb in Hs.
    cbn [snd] in Hs. by assert (w' = set_API_BASE b w) as -> by congruence.
  - assert (w' = snd (submit k f w)) as -> by congruence.
    by destruct (submit_cases k f w) as [[key ->]| ->].
  - destruct (submitting w !! req) as [k|]; [|done].
    assert (w' = snd (submit_resume k r now (set_submitting (delete req (submitting w)) w)))
      as -> by congruence.
    rewrite submit_resume_cases. by destruct (accepted r).
  - destruct (intervals w !! id) as [c|]; [|done].
    assert (w' = snd (poll_issue c w)) as -> by congruence.
    by destruct (poll_issue_frame c w) as (_ & _ & Hiv & Hh & _).
  - destruct (inflight w !! req) as [c|]; [|done].
    set (w0 := set_inflight (delete req (inflight w)) w) in *.
    assert (w' = snd (poll_resume c r now w0)) as -> by congruence.
    destruct (accepted r) as [job|] eqn:Ha.
    + destruct r as [|[|] [m| |job']]; try discriminate. injection Ha as ->.
      rewrite poll_resume_success, Hc. cbv zeta. unfold snd.
      subst w0. by destruct (reaches_assignment _ job).
    + destruct (poll_resume_failure c r now w0 Ha) as [e ->]. by subst w0.
Qed.

(** X6: polling has no limit of its own.  Through any sequence of
    events that contains neither a terminal status response nor an
    accepted submission (ticks, failed fetches, non-terminal responses,
    rejected submissions, settings changes) the handle and the active
    interval stay exactly as they were, so an active interval can fire
    again after every such sequence. *)
Theorem polling_persists evs : forall w w',
  Forall (fun e => may_cancel e = false) evs ->
  run evs w = Some w' ->
  intervals w' = intervals w /\
  pollingTimer w' = pollingTimer w /\
  (forall id poll, intervals w !! id = Some poll ->
                   step (Tick id) w' = Some (snd (poll_issue poll w'))).
Proof.
  induction evs as [|e evs IH]; intros w w' Hall Hr; cbn [run] in Hr.
  - injection Hr as <-. repeat split. intros id poll. apply step_Tick.
  - destruct (step e w) as [w1|] eqn:Hs; [|done].
    apply Forall_cons in Hall as [He Hall].
    destruct (step_keeps_interval e w w1 He Hs) as [Hiv Hh].
    destruct (IH w1 w' Hall Hr) as (Hiv' & Hh' & Htick).
    rewrite Hiv', Hh', Hiv, Hh. repeat split.
    intros id poll Hp. apply Htick. by rewrite Hiv.
Qed.

Lemma polling_persists_witness :
  exists w',
    run [ PollSettled 1 NetworkError 1100; Tick 1;
          PollSettled 2 (HttpResponse false not_json) 3100; Tick 1;
          PollSettled 3 (status_response processing_job) 5100 ] polling_world = Some w'
    /\ intervals w' = intervals polling_world.
Proof.
  eexists. split; [vm_compute; reflexivity|].
  eapply (polling_persists
            [ PollSettled 1 NetworkError 1100; Tick 1;
              PollSettled 2 (HttpResponse false not_json) 3100; Tick 1;
              PollSettled 3 (status_response processing_job) 5100 ] polling_world).
  - repeat constructor.
  - vm_compute. reflexivity.
Defined.

(** X7: the elapsed time that a successful poll displays is the number
    of whole seconds nearest to the time since the session's
    [startJobPolling] call: it is off by at most half a second, a tie
    going to the next second. *)
Theorem elapsed_within_half_second w req poll job now :
  inflight w !! req = Some poll ->
  exists w' e,
    step (PollSettled req (HttpResponse true (BodyObject job)) now) w = Some w' /\
    elapsed_shown (c_session poll) (log w') =
      elapsed_shown (c_session poll) (log w) ++ [e] /\
    1000 * e - 500 <= now - c_startTime poll < 1000 * e + 500.
Proof.
  intros E. eexists. exists (round_seconds (now - c_startTime poll)).
  split; [by apply step_PollSettled|]. split.
  - rewrite poll_resume_elapsed. cbn [accepted]. world_fields.
    by rewrite Nat.eqb_refl.
  - unfold round_seconds.
    pose proof (Z.div_mod (now - c_startTime poll + 500) 1000 ltac:(lia)).
    pose proof (Z.mod_pos_bound (now - c_startTime poll + 500) 1000 ltac:(lia)).
    lia.
Qed.

Lemma elapsed_within_half_second_witness :
  exists w' e,
    step (PollSettled 1 (status_response processing_job) 3499) polling_world = Some w'
    /\ elapsed_shown 1 (log w') = [e]
    /\ 1000 * e - 500 <= 2499 < 1000 * e + 500.
Proof.
  assert (Hp : inflight polling_world !! 1%nat =
               Some (Closure 1 (JStr (lit "job-1")) 1000))
    by (vm_compute; reflexivity).
  destruct (elapsed_within_half_second polling_world 1 _ processing_job 3499 Hp)
    as (w' & e & Hs & Hl & Hb).
  exists w', e. split; [exact Hs|]. split; [exact Hl|exact Hb].
Defined.

(** X8: [poll] reads [API_BASE] when it issues a fetch, not when the
    session starts: after the settings are saved with another base, the
    next tick of a running session fetches the job's status from the new
    base. *)
Theorem settings_change_redirects_polling w id poll loc url :
  intervals w !! id = Some poll ->
  exists w',
    run [SaveSettings loc url; Tick id] w = Some w' /\
    log w' = log w ++
      [(Poller (c_session poll),
        Fetch "GET" (API_BASE (snd (setApiBase loc url w)) ++ lit "/jobs/" ++
                     to_string (c_jobId poll)))] /\
    inflight w' = <[next_request w := poll]> (inflight w).
Proof.
  intros E. destruct (setApiBase_frame loc url w) as [b Hb].
  eexists. split.
  - cbn [run]. unfold step at 1. rewrite Hb. cbn [snd].
    rewrite (step_Tick (set_API_BASE b w) id poll E). reflexivity.
  - rewrite Hb. cbn [snd].
    destruct (poll_issue_frame poll (set_API_BASE b w))
      as (_ & _ & _ & _ & _ & _ & Hfl & _ & Hl).
    cbv zeta in Hfl, Hl. by rewrite Hl, Hfl.
Qed.

Lemma settings_change_redirects_polling_witness :
  exists w',
    run [SaveSettings (Location (lit "localhost") (lit "http://localhost:5500"))
                      (Some (lit "https://api.example.com/"));
         Tick 1] polling_world = Some w'
    /\ last (log w') =
       Some (Poller 1, Fetch "GET" (lit "https://api.example.com/jobs/job-1")).
Proof.
  assert (Ha : intervals polling_world !! 1%nat =
               Some (Closure 1 (JStr (lit "job-1")) 1000))
    by (vm_compute; reflexivity).
  destruct (settings_change_redirects_polling polling_world 1 _
              (Location (lit "localhost") (lit "http://localhost:5500"))
              (Some (lit "https://api.example.com/")) Ha)
    as (w' & Hs & Hl & _).
  exists w'. split; [exact Hs|]. rewrite Hl. rewrite last_snoc.
  vm_compute. reflexivity.
Defined.

(** ** History *)

Lemma children_app l1 l2 : children (l1 ++ l2) = children l1 ++ children l2.
Proof. apply List.filter_app. Qed.

Lemma firstn_snoc_full {A} (l : list A) (x : A) (n : nat) :
  (n <= length l)%nat -> firstn n (l ++ [x]) = firstn n l.
Proof.
  intros H. rewrite firstn_app. replace (n - length l)%nat with 0%nat by lia.
  cbn. apply app_nil_r.
Qed.

(** The loop of [addToHistory] ends within its fuel and keeps the first
    ten element children. *)
Lemma drop_excess_children fuel : forall nodes,
  (length nodes <= fuel)%nat ->
  children (drop_excess fuel nodes) = firstn 10 (children nodes).
Proof.
  induction fuel as [|fuel IH]; intros nodes Hlen; cbn [drop_excess].
  - destruct nodes; [reflexivity|cbn in Hlen; lia].
  - destruct (Nat.ltb_spec 10 (length (children nodes))) as [Hgt|Hle].
    + destruct (exists_last (l := nodes)) as (l & x & ->).
      { intros ->. cbn in Hgt. lia. }
      rewrite removelast_last. rewrite length_app in Hlen. cbn in Hlen.
      rewrite IH by lia. rewrite children_app in *.
      assert (Hx : children [x] = if is_element x then [x] else []) by reflexivity.
      rewrite Hx in *. destruct (is_element x); [|by rewrite app_nil_r].
      rewrite length_app in Hgt. cbn [length] in Hgt.
      symmetry. apply firstn_snoc_full. lia.
    + symmetry. apply firstn_all2. lia.
Qed.

Lemma children_remove_empty_message nodes :
  children (remove_empty_message nodes) = remove_empty_message (children nodes).
Proof.
  unfold children. induction nodes as [|n nodes IH]; [reflexivity|].
  destruct n; cbn [remove_empty_message List.filter is_element];
    [exact IH|reflexivity|by rewrite IH].
Qed.

Lemma remove_empty_message_none l :
  ~ In EmptyMessage l -> remove_empty_message l = l.
Proof.
  induction l as [|n l IH]; [reflexivity|]. intros Hn.
  destruct n; cbn; [| exfalso; apply Hn; by left |];
    (rewrite IH; [reflexivity|]; intros H; apply Hn; by right).
Qed.

Lemma addToHistory_children origin time job nodes :
  children (addToHistory origin time job nodes) =
  firstn 10 (Item (new_item origin time job) :: remove_empty_message (children nodes)).
Proof.
  unfold addToHistory. rewrite drop_excess_children by lia.
  cbn. by rewrite children_remove_empty_message.
Qed.

(** X9: [addToHistory] puts the new item first, takes out the 'no
    history' message, and its loop always ends with at most ten element
    children, whatever the list held before (text nodes and more than ten
    items included): what is kept are the first ten of the new item
    followed by the earlier elements. *)
Theorem addToHistory_keeps_ten origin time job nodes :
  children (addToHistory origin time job nodes) =
    firstn 10 (Item (new_item origin time job) ::
               remove_empty_message (children nodes)) /\
  hd_error (children (addToHistory origin time job nodes)) =
    Some (Item (new_item origin time job)) /\
  (length (children (addToHistory origin time job nodes)) <= 10)%nat /\
  Nat.ltb 10 (length (children (addToHistory origin time job nodes))) = false.
Proof.
  rewrite addToHistory_children. split; [reflexivity|]. split; [reflexivity|].
  assert (H : (length (firstn 10 (Item (new_item origin time job) ::
                        remove_empty_message (children nodes))) <= 10)%nat)
    by apply firstn_le_length.
  split; [exact H|]. apply Nat.ltb_ge. exact H.
Qed.

Lemma firstn_app_firstn {A} (l1 l2 : list A) (n : nat) :
  firstn n (l1 ++ firstn n l2) = firstn n (l1 ++ l2).
Proof.
  rewrite !firstn_app. f_equal. rewrite firstn_firstn. f_equal. lia.
Qed.

Lemma In_firstn_In {A} (x : A) n : forall l, In x (firstn n l) -> In x l.
Proof.
  induction n as [|n IH]; intros [|y l]; cbn; try done.
  intros [H|H]; [by left|right; by apply IH].
Qed.

Lemma add_all_children calls : forall nodes,
  ~ In EmptyMessage (children nodes) ->
  (length (children nodes) <= 10)%nat ->
  children (add_all calls nodes) =
  firstn 10 (rev (map item_of_call calls) ++ children nodes).
Proof.
  induction calls as [|c calls IH]; intros nodes Hn Hlen; cbn [add_all fold_left map rev].
  - cbn [app]. symmetry. by apply firstn_all2.
  - change (fold_left _ calls ?n) with (add_all calls n).
    assert (Hstep : children (addToHistory (fst (fst c)) (snd (fst c)) (snd c) nodes) =
                    firstn 10 (item_of_call c :: children nodes)).
    { rewrite addToHistory_children. by rewrite remove_empty_message_none. }
    rewrite IH.
    + rewrite Hstep, firstn_app_firstn. by rewrite <- app_assoc.
    + rewrite Hstep. intros Hin. apply In_firstn_In in Hin.
      destruct Hin as [Hin|Hin]; [discriminate Hin|done].
    + rewrite Hstep. apply firstn_le_length.
Qed.

(** X10: starting from a history list that holds only the 'no history'
    message, after any number of calls of [addToHistory] (at least one)
    the list shows the items of the last ten calls, newest first, and
    the message is gone. *)
Theorem history_shows_last_ten calls nodes :
  children nodes = [EmptyMessage] ->
  calls <> [] ->
  children (add_all calls nodes) = firstn 10 (rev (map item_of_call calls)).
Proof.
  intros Hc Hne. destruct calls as [|c calls]; [done|].
  cbn [add_all fold_left]. change (fold_left _ calls ?n) with (add_all calls n).
  assert (Hstep : children (addToHistory (fst (fst c)) (snd (fst c)) (snd c) nodes) =
                  [item_of_call c]).
  { rewrite addToHistory_children, Hc. reflexivity. }
  rewrite add_all_children.
  - rewrite Hstep. reflexivity.
  - rewrite Hstep. intros [Hin|[]]. discriminate Hin.
  - rewrite Hstep. cbn. lia.
Qed.

Lemma history_shows_last_ten_witness :
  children (add_all [ (lit "http://localhost:8000", lit "10:00:00", completed_job);
                      (lit "http://localhost:8000", lit "10:05:00", completed_job) ]
                    [TextNode; EmptyMessage; TextNode])
  = [ Item (new_item (lit "http://localhost:8000") (lit "10:05:00") completed_job);
      Item (new_item (lit "http://localhost:8000") (lit "10:00:00") completed_job) ].
Proof.
  rewrite (history_shows_last_ten
             [ (lit "http://localhost:8000", lit "10:00:00", completed_job);
               (lit "http://localhost:8000", lit "10:05:00", completed_job) ]
             [TextNode; EmptyMessage; TextNode]).
  - reflexivity.
  - reflexivity.
  - discriminate.
Defined.

(** ** The result panel *)

Lemma show_all_snoc tr calls c v :
  show_all tr (calls ++ [c]) v = showResult tr (fst c) (snd c) (show_all tr calls v).
Proof. unfold show_all. by rewrite fold_left_app. Qed.

Lemma show_all_onclick tr calls : forall v,
  continueBtn_onclick (show_all tr calls v) =
  continueBtn_onclick v ||
  existsb (fun c => strict_eq_lit (job_type (snd c)) "video") calls.
Proof.
  induction calls as [|c calls IH]; intros v; cbn [show_all fold_left existsb].
  - by rewrite orb_false_r.
  - change (fold_left _ calls ?x) with (show_all tr calls x). rewrite IH.
    rewrite orb_assoc. f_equal. unfold showResult.
    destruct (strict_eq_lit (job_type (snd c)) "face") eqn:Hf.
    + destruct (job_type (snd c)) as [| | | |s|]; try discriminate Hf.
      cbn in Hf. apply bool_decide_eq_true in Hf. subst s.
      cbn. by rewrite orb_false_r.
    + destruct (strict_eq_lit (job_type (snd c)) "video"); cbn;
        by rewrite ?orb_true_r, ?orb_false_r.
Qed.

(** X11: after any sequence of [showResult] calls the panel shows the
    last job only: the panel is visible, exactly one of the image and
    the video is visible (the image for a face job), its source and the
    download link are the backend origin followed by the job's
    [result_url], and the file is named [type_id.png] for a face job and
    [type_id.mp4] otherwise.  The click handler that [showResult] sets on
    the continue button for a video job is never removed: it is set
    afterwards exactly when it was set before or one of the jobs shown
    was a video job. *)
Theorem panel_shows_last_result tr calls origin job v :
  let v' := show_all tr (calls ++ [(origin, job)]) v in
  let face := strict_eq_lit (job_type job) "face" in
  resultDisplay_hidden v' = false /\
  resultImage_hidden v' = negb face /\
  resultVideo_hidden v' = face /\
  (if face then resultImage_src v' else resultVideo_src v') =
    origin ++ to_string (result_url job) /\
  downloadLink_href v' = origin ++ to_string (result_url job) /\
  downloadLink_download v' =
    to_string (job_type job) ++ lit "_" ++ to_string (job_id job) ++
    (if face then lit ".png" else lit ".mp4") /\
  continueBtn_hidden v' = negb (face || strict_eq_lit (job_type job) "video") /\
  continueBtn_onclick v' =
    continueBtn_onclick v ||
    existsb (fun c => strict_eq_lit (job_type (snd c)) "video")
            (calls ++ [(origin, job)]).
Proof.
  cbv zeta. split; [|split; [|split; [|split; [|split; [|split; [|split]]]]]];
    try apply show_all_onclick;
    rewrite show_all_snoc; cbn [fst snd]; unfold showResult;
    destruct (strict_eq_lit (job_type job) "face");
    try destruct (strict_eq_lit (job_type job) "video"); reflexivity.
Qed.

(** ** Theme *)

(** X12: the theme toggle always leaves the theme 'dark' or 'light'
    (any other stored value becomes 'dark'), with localStorage and the
    document's [data-theme] equal to [state.theme]; on a theme that is
    'dark' or 'light' two toggles give back the theme, and after
    [setTheme] of such a theme they give back the whole state. *)
Theorem theme_toggle_round_trip darkMode lightMode v :
  let v1 := toggleTheme darkMode lightMode v in
  (state_theme v1 = lit "dark" \/ state_theme v1 = lit "light") /\
  stored_theme v1 = Some (state_theme v1) /\
  dataset_theme v1 = state_theme v1 /\
  (state_theme v <> lit "dark" -> state_theme v1 = lit "dark") /\
  (state_theme v = lit "dark" \/ state_theme v = lit "light" ->
   state_theme (toggleTheme darkMode lightMode v1) = state_theme v) /\
  (forall theme, theme = lit "dark" \/ theme = lit "light" ->
   toggleTheme darkMode lightMode
     (toggleTheme darkMode lightMode (setTheme darkMode lightMode theme v)) =
   setTheme darkMode lightMode theme v).
Proof.
  cbv zeta. unfold toggleTheme.
  split; [|split; [|split; [|split; [|split]]]].
  - destruct (bool_decide (state_theme v = lit "dark")); cbn; auto.
  - reflexivity.
  - reflexivity.
  - intros Hne. by rewrite bool_decide_eq_false_2.
  - intros [->| ->]; reflexivity.
  - intros theme [->| ->]; unfold setTheme; cbn [state_theme themeText];
      destruct (themeText v); reflexivity.
Qed.

(** ** Settings *)


(** ** Malformed responses *)

(** X14: a 2xx status response whose body is not JSON, or is the JSON
    value null, is handled like a failed fetch: [poll] catches the error,
    logs it with [console.error] and does nothing else, so nothing is
    displayed or stored, nothing is cancelled and the interval fires
    again. *)
Theorem malformed_status_keeps_polling w req poll body now :
  inflight w !! req = Some poll ->
  accepted (HttpResponse true body) = None ->
  exists w',
    step (PollSettled req (HttpResponse true body) now) w = Some w' /\
    log w' = log w ++
      [(Poller (c_session poll),
        ConsoleError (Native (match body with
                              | BodyInvalid m => JsonSyntax m
                              | _ => NullProperty "progress"
                              end)))] /\
    intervals w' = intervals w /\
    pollingTimer w' = pollingTimer w /\
    currentJob w' = currentJob w /\
    (forall id p, intervals w !! id = Some p ->
                  step (Tick id) w' = Some (snd (poll_issue p w'))).
Proof.
  intros E Ha. eexists. split; [by apply step_PollSettled|].
  destruct body as [m| |o]; try discriminate Ha;
    (repeat split; intros id p Hp; apply step_Tick; exact Hp).
Qed.

Lemma malformed_status_keeps_polling_witness :
  exists w',
    step (PollSettled 1 (HttpResponse true BodyNull) 1200) polling_world = Some w'
    /\ intervals w' = intervals polling_world
    /\ currentJob w' = currentJob polling_world.
Proof.
  assert (Hp : inflight polling_world !! 1%nat =
               Some (Closure 1 (JStr (lit "job-1")) 1000))
    by (vm_compute; reflexivity).
  destruct (malformed_status_keeps_polling polling_world 1 _ BodyNull 1200 Hp eq_refl)
    as (w' & Hs & _ & Hiv & _ & Hj & _).
  exists w'. split; [exact Hs|]. split; [exact Hiv|exact Hj].
Defined.

(** X15: a submission that gets no response, or a 2xx response whose
    body is not JSON or is null, does not start polling either: the
    poller's state is untouched.  The submit function catches the error
    and shows an error toast with the engine's message; for a null body
    the success toast 'Processing...' is shown first, because it precedes
    the read of [data.job_id].  When the error toast can be built the
    function completes normally; when it cannot (the engine's message
    for a body that is not JSON may quote the body), no error toast is
    shown and what [showToast] threw leaves the function.  The button is
    re-enabled in both cases. *)
Theorem unanswered_submission_never_polls w req k r now :
  submitting w !! req = Some k ->
  r = NetworkError \/ (exists m, r = HttpResponse true (BodyInvalid m)) \/
  r = HttpResponse true BodyNull ->
  let cause :=
    NativeMessage (match r with
                   | NetworkError => FetchFailed
                   | HttpResponse _ (BodyInvalid m) => JsonSyntax m
                   | HttpResponse _ _ => NullProperty "job_id"
                   end) in
  exists w',
    step (SubmitSettled req r now) w = Some w' /\
    fst (submit_resume k r now (set_submitting (delete req (submitting w)) w)) =
      (if toast_builds w cause then Normal tt else Throw toast_failure) /\
    log w' = log w ++
      match r with
      | HttpResponse true BodyNull =>
          [ (Page, ShowToast (Text (t (language w) "processing" ++ lit "...")) ToastSuccess) ]
      | _ => []
      end ++
      (if toast_builds w cause then [ (Page, ShowToast cause ToastError) ] else []) ++
      [ (Page, SetButtonLoading k false) ] /\
    pollingTimer w' = pollingTimer w /\
    intervals w' = intervals w /\
    next_interval w' = next_interval w /\
    inflight w' = inflight w /\
    currentJob w' = currentJob w.
Proof.
  intros E Hr. cbv zeta. eexists. split; [by apply step_SubmitSettled|].
  rewrite submit_resume_cases.
  destruct Hr as [->|[[m ->]| ->]]; cbn [accepted fst snd]; world_fields; repeat split.
Qed.

Lemma unanswered_submission_never_polls_witness :
  exists w',
    step (SubmitSettled 2 (HttpResponse true BodyNull) 5000) resubmitted_world = Some w'
    /\ intervals w' = intervals resubmitted_world
    /\ inflight w' = inflight resubmitted_world.
Proof.
  assert (Hsub : submitting resubmitted_world !! 2%nat = Some Face)
    by (vm_compute; reflexivity).
  destruct (unanswered_submission_never_polls resubmitted_world 2 Face
              (HttpResponse true BodyNull) 5000 Hsub (or_intror (or_intror eq_refl)))
    as (w' & Hs & _ & _ & _ & Hiv & _ & Hfl & _).
  exists w'. split; [exact Hs|]. split; [exact Hiv|exact Hfl].
Defined.

(** ** An empty API base *)

(** X16: [setApiBase] stores the empty string as [API_BASE] exactly when
    the configured value, trimmed, is the single character '/': every
    other value leaves a non-empty base, and so do the defaults.  With
    the empty base the request URLs are the bare paths ('/jobs/...'). *)
Theorem setApiBase_empty_base loc url w :
  API_BASE (snd (setApiBase loc url w)) = [] <-> trim (default [] url) = [slash].
Proof.
  unfold setApiBase. destruct (trim (default [] url)) as [|c v] eqn:Hv;
    cbn [snd modify API_BASE set_API_BASE].
  - split; [|discriminate]. unfold computeDefaultApiBase. cbv zeta.
    destruct (_ || _); [discriminate|].
    intros H. apply app_eq_nil in H as [_ H]. discriminate H.
  - destruct v as [|d v].
    + cbn. destruct (N.eqb_spec c slash) as [->|Hne]; [done|].
      split; [discriminate|]. intros [= H]. done.
    + change (replace_trailing_slash (c :: d :: v))
        with (c :: replace_trailing_slash (d :: v)).
      split; discriminate.
Qed.

(** ** Where the timer is cancelled *)








(** ** The stored record *)

(** X17: a status fetch that succeeds with a record makes [poll] assign
    that record to [state.currentJob] whenever the handler gets as far as
    the assignment: for every record whose status is not 'failed', the
    completed one included, and for a failed one whose toast can be
    built.  The record then stays there through every later event other
    than a further status response with a record or an accepted
    submission. *)
Theorem stored_record_stays w req poll job now :
  inflight w !! req = Some poll ->
  strict_eq_lit (status job) "failed" = false \/
  toast_builds w (failure_text (language w) job) = true ->
  exists w',
    step (PollSettled req (HttpResponse true (BodyObject job)) now) w = Some w' /\
    currentJob w' = Some job /\
    forall evs w'',
      Forall (fun e => writes_current_job e = false) evs ->
      run evs w' = Some w'' -> currentJob w'' = Some job.
Proof.
  intros E Hb.
  destruct (poll_success_currentJob w req poll job now E) as (w' & Hs & Hj & _).
  assert (Hra : reaches_assignment w job = true).
  { unfold reaches_assignment.
    destruct (strict_eq_lit (status job) "completed"); [done|].
    destruct Hb as [-> | ->]; [done|]. by destruct (strict_eq_lit _ _). }
  rewrite Hra in Hj. exists w'. split; [exact Hs|]. split; [exact Hj|].
  intros evs w'' Hall Hrun. by rewrite (run_currentJob_frame _ _ _ Hall Hrun).
Qed.

Lemma stored_record_stays_witness :
  exists w',
    step (PollSettled 1 (status_response failed_job) 3100) polling_world = Some w'
    /\ currentJob w' = Some failed_job.
Proof.
  assert (Hp : inflight polling_world !! 1%nat =
               Some (Closure 1 (JStr (lit "job-1")) 1000))
    by (vm_compute; reflexivity).
  assert (Hb : strict_eq_lit (status failed_job) "failed" = false \/
               toast_builds polling_world
                 (failure_text (language polling_world) failed_job) = true)
    by (right; vm_compute; reflexivity).
  destruct (stored_record_stays polling_world 1 _ failed_job 3100 Hp Hb)
    as (w' & Hs & Hj & _).
  exists w'. split; [exact Hs|exact Hj].
Defined.
